(** * Easy-Translate: the translation script [translate.py]

    A shallow embedding of [translate.py]: the command-line front end
    (the [argparse] configuration under [__main__]) and the function
    [main], which creates the output directory, loads a pretrained
    tokenizer and model, builds a dataloader over the input file, selects
    dtype and device (or the TensorRT compilation path), and writes one
    decoded line per input sentence.

    The script is effectful glue.  Effects are modelled by explicit state
    passing: a [World] holds a small file system and the chronological
    trace of the calls the script makes to its collaborators; failures are
    Python exceptions carried by a result type.

    What the embedding leaves out or fixes:
    - the pretrained-model library, the compiler and [int] are the fields
      of a record [Lib], about which nothing is assumed unless a statement
      says so;
    - the module [dataset] is not among the sources: [count_lines] and
      [get_dataloader] follow the words of the specification;
    - text written to the output file reaches it at once (a buffer would
      deliver the same text by the time the file is closed);
    - [torch.no_grad()] and the description of the progress bar have no
      counterpart: nothing the script does depends on them;
    - a file or directory is named by the key of its path ([Path.key]);
    - a command line is the list of the words [argparse] takes for
      options ([cli_arg]), each an option string alone or with its value;
      the parser is the one of CPython 3.11. *)

From Stdlib Require Import ZArith Lia Ascii String.
From stdpp Require Import base option list strings gmap pretty.

Local Open Scope Z_scope.

(** ** Text *)

Module Text.

(** The newline character and the one-character string [NL]. *)
Definition nl : ascii := "010"%char.
Definition NL : string := String nl "".

(** [sep.join(l)] of Python. *)
Fixpoint join (sep : string) (l : list string) : string :=
  match l with
  | [] => ""
  | [x] => x
  | x :: rest => x +:+ sep +:+ join sep rest
  end.

(** The lines of a text, line terminators removed, as iterating over a
    text file (or [str.splitlines] for the newline character) yields
    them: a final line needs no terminator, and a terminator at the end
    of the text opens no further line. *)
Fixpoint lines (s : string) : list string :=
  match s with
  | "" => []
  | String c rest =>
      if Ascii.eqb c nl then "" :: lines rest
      else match lines rest with
           | [] => [String c ""]
           | l :: ls => String c l :: ls
           end
  end.


(** The last character of a string, if any. *)
Fixpoint last_char (s : string) : option ascii :=
  match s with
  | "" => None
  | String c "" => Some c
  | String _ rest => last_char rest
  end.

Definition is_empty (s : string) : bool :=
  match s with "" => true | _ => false end.


(** [c in s] for a character. *)
Fixpoint has_char (c : ascii) (s : string) : bool :=
  match s with
  | "" => false
  | String x r => Ascii.eqb x c || has_char c r
  end.

End Text.

(** ** Paths: [posixpath.split] and [os.path.dirname] *)

Module Path.

Definition sep : ascii := "/"%char.

Fixpoint has_sep (p : string) : bool :=
  match p with
  | "" => false
  | String c r => Ascii.eqb c sep || has_sep r
  end.

(** [(p[:i], p[i:])] for [i = p.rfind('/') + 1]. *)
Fixpoint cut_last_sep (p : string) : string * string :=
  match p with
  | "" => ("", "")
  | String c r =>
      if has_sep r then
        let '(h, t) := cut_last_sep r in (String c h, t)
      else if Ascii.eqb c sep then (String c "", r)
      else ("", String c r)
  end.

(** [head == sep * len(head)]. *)
Fixpoint all_sep (s : string) : bool :=
  match s with
  | "" => true
  | String c r => Ascii.eqb c sep && all_sep r
  end.

(** [head.rstrip(sep)]. *)
Fixpoint rstrip_sep (s : string) : string :=
  match s with
  | "" => ""
  | String c r =>
      match rstrip_sep r with
      | "" => if Ascii.eqb c sep then "" else String c ""
      | r' => String c r'
      end
  end.

(** [posixpath.split]. *)
Definition split (p : string) : string * string :=
  let '(head, tail) := cut_last_sep p in
  if negb (Text.is_empty head) && negb (all_sep head)
  then (rstrip_sep head, tail)
  else (head, tail).

(** [os.path.dirname]. *)
Definition dirname (p : string) : string := fst (split p).

(** The components of a path between separators. *)
Fixpoint components (p : string) : list string :=
  match p with
  | "" => [""]
  | String c r =>
      if Ascii.eqb c sep then "" :: components r
      else match components r with
           | [] => [String c ""]
           | x :: xs => String c x :: xs
           end
  end.

Definition is_abs (p : string) : bool :=
  match p with
  | String c _ => Ascii.eqb c sep
  | "" => false
  end.

Definition keep_component (c : string) : bool :=
  negb (Text.is_empty c) && negb (String.eqb c ".").

(** The file-system key of a path: its components, without the empty
    ones and the [.] ones, behind a root marker for an absolute path.
    The working directory has key [[]].  Neither [..] nor symbolic links
    are resolved: two paths name the same file exactly when their keys
    are equal. *)
Definition key (p : string) : list string :=
  (if is_abs p then ["/"] else []) ++ filter (λ c, Is_true (keep_component c)) (components p).

End Path.


(** ** Python values the script handles *)

(** The exceptions that reach the top level of the script. *)
Inductive exn :=
| ValueError (msg : string)
| KeyError (k : string)
| FileNotFoundError
| FileExistsError
| NotADirectoryError
| IsADirectoryError
| OSError
| ImportError
| RuntimeError.

Inductive Result (A : Type) :=
| Ok (a : A)
| Raise (e : exn).
Arguments Ok {A} a.
Arguments Raise {A} e.

(** [torch.float16], [torch.float32], [torch.float64]. *)
Inductive dtype := float16 | float32 | float64.

(** ["cuda"] and ["cpu"]. *)
Inductive device := cuda | cpu.

(** A tokenized batch: the tensors [input_ids] and [attention_mask], one
    row per sentence. *)
Record Batch := mkBatch {
  input_ids : list (list Z);
  attention_mask : list (list Z)
}.

(** ** The file system *)

Module FS.

(** Directories and regular files, by path key.  The working directory
    [[]] and the root [["/"]] are always directories. *)
Record t := mk {
  dirs : gset (list string);
  files : gmap (list string) string
}.

Definition is_dir (fs : t) (k : list string) : bool :=
  bool_decide (k = []) || bool_decide (k = ["/"]) || bool_decide (k ∈ dirs fs).

Definition is_file (fs : t) (k : list string) : bool :=
  bool_decide (is_Some (files fs !! k)).

(** [os.path.exists]: false for the empty path. *)
Definition path_exists (fs : t) (p : string) : bool :=
  negb (Text.is_empty p) && (is_dir fs (Path.key p) || is_file fs (Path.key p)).

(** The non-empty prefixes of a key: the directory itself and its
    ancestors. *)
Fixpoint prefixes (k : list string) : list (list string) :=
  match k with
  | [] => []
  | c :: r => [c] :: map (cons c) (prefixes r)
  end.

(** [os.makedirs(p)] with [exist_ok=False]: creates the leaf directory
    and every missing intermediate one. *)
Definition makedirs (p : string) (fs : t) : Result t :=
  if Text.is_empty p then Raise FileNotFoundError
  else
    let k := Path.key p in
    if is_dir fs k || is_file fs k then Raise FileExistsError
    else if existsb (is_file fs) (prefixes k) then Raise NotADirectoryError
    else Ok {| dirs := dirs fs ∪ list_to_set (prefixes k); files := files fs |}.

Definition parent (k : list string) : list string := removelast k.

Definition ends_with_sep (p : string) : bool :=
  match Text.last_char p with
  | Some c => Ascii.eqb c Path.sep
  | None => false
  end.

(** [open(p, "w+")]: creates the file or truncates it. *)
Definition open_truncate (p : string) (fs : t) : Result t :=
  if Text.is_empty p then Raise FileNotFoundError
  else
    let k := Path.key p in
    if is_dir fs k || ends_with_sep p then Raise IsADirectoryError
    else if is_dir fs (parent k)
         then Ok {| dirs := dirs fs; files := <[k := ""]> (files fs) |}
    else if is_file fs (parent k) then Raise NotADirectoryError
    else Raise FileNotFoundError.

(** Reading a whole text file. *)
Definition read (p : string) (fs : t) : Result string :=
  if Text.is_empty p then Raise FileNotFoundError
  else
    match files fs !! Path.key p with
    | Some content => Ok content
    | None => if is_dir fs (Path.key p) then Raise IsADirectoryError
              else Raise FileNotFoundError
    end.

(** Writing [data] at the end of an open file. *)
Definition append (p : string) (data : string) (fs : t) : t :=
  {| dirs := dirs fs; files := alter (λ c, c +:+ data) (Path.key p) (files fs) |}.

Definition content (fs : t) (p : string) : option string :=
  files fs !! Path.key p.

End FS.

(** ** The world: file system and trace of calls *)

(** The calls the script makes, in the order it makes them.  A call is
    recorded when it is made, whether or not it then succeeds. *)
Inductive event :=
| Print (text : string)
| MakeDirs (path : string)
| TokenizerFromPretrained (name : string)
| ModelFromPretrained (name : string)
| ModelEval
| CountLines (path : string)
| GetDataloader (filename : string) (batch_size max_length : Z)
| ImportTensorrt
| JitTrace (batch_size max_length : Z)
| TensorrtCompile (batch_size max_length : Z) (dt : dtype)
| ModelTo (dev : device) (dt : dtype)
| PbarOpen (total : nat)
| PbarUpdate (n : nat)
| PbarClose
| FileOpen (path : string)
| FileWrite (path : string) (data : string)
| FileClose (path : string)
| Generate (compiled : bool) (rows : nat) (forced_bos_token_id : Z).

Record World := mkWorld {
  fs : FS.t;
  trace : list event
}.

(** ** A state and exception monad *)

Definition M (A : Type) : Type := World → Result A * World.

Definition ret {A} (a : A) : M A := λ w, (Ok a, w).

Definition raise {A} (e : exn) : M A := λ w, (Raise e, w).

Definition bind {A B} (c : M A) (k : A → M B) : M B :=
  λ w, match c w with
       | (Ok a, w') => k a w'
       | (Raise e, w') => (Raise e, w')
       end.

Declare Scope py_scope.
Delimit Scope py_scope with py.
Notation "'let!' x ':=' c 'in' k" := (bind c (λ x, k))
  (at level 10, x name, c at level 100, k at level 200) : py_scope.
Notation "'do!' c 'in' k" := (bind c (λ _, k))
  (at level 10, c at level 100, k at level 200) : py_scope.

(** Recording a call. *)
Definition emit (e : event) : M unit :=
  λ w, (Ok tt, {| fs := fs w; trace := trace w ++ [e] |}).

(** [print(text)] to standard output. *)
Definition print (text : string) : M unit := emit (Print text).

(** Lifting an operation of the file system. *)
Definition fs_update (f : FS.t → Result FS.t) : M unit :=
  λ w, match f (fs w) with
       | Ok fs' => (Ok tt, {| fs := fs'; trace := trace w |})
       | Raise e => (Raise e, w)
       end.

Definition fs_query {A} (f : FS.t → Result A) : M A :=
  λ w, match f (fs w) with
       | Ok a => (Ok a, w)
       | Raise e => (Raise e, w)
       end.

(** A library call that raises [e] when it has no result. *)
Definition from_option {A} (e : exn) (o : option A) : M A :=
  match o with
  | Some a => ret a
  | None => raise e
  end.

(** [for x in l: body(x)]. *)
Fixpoint for_each {A} (body : A → M unit) (l : list A) : M unit :=
  match l with
  | [] => ret tt
  | x :: rest => bind (body x) (λ _, for_each body rest)
  end.

(** [with ... :] the exit action runs on every way out of the body. *)
Definition finally {A} (body : M A) (on_exit : M unit) : M A :=
  λ w, match body w with
       | (r, w') => (r, snd (on_exit w'))
       end.

(** ** [os] *)

Definition os_path_exists (p : string) : M bool :=
  λ w, (Ok (FS.path_exists (fs w) p), w).

Definition os_makedirs (p : string) : M unit :=
  bind (emit (MakeDirs p)) (λ _, fs_update (FS.makedirs p)).

(** ** The pretrained-model library, the compiler and the interpreter *)

(** The collaborators of the script, consumed as black boxes.  A call
    with no result ([None]) raised an exception. *)
Record Lib := mkLib {
  Tok : Type;     (* a loaded tokenizer *)
  Net : Type;     (* a loaded model *)
  Tensor : Type;  (* the example input of the tracer *)
  Traced : Type;  (* a traced model *)
  Engine : Type;  (* a compiled model *)
  (** [int(s)], the [type=int] of [argparse] *)
  py_int : string → option Z;
  (** [M2M100Tokenizer.from_pretrained] *)
  tokenizer_from_pretrained : string → option Tok;
  (** [M2M100ForConditionalGeneration.from_pretrained] *)
  model_from_pretrained : string → option Net;
  (** [tokenizer.lang_code_to_id], a dict *)
  lang_code_to_id : Tok → string → option Z;
  (** the tokenizer called on a list of sentences, for a source language
      and a maximum length *)
  encode : Tok → option string → Z → list string → Batch;
  (** [tokenizer.decode(ids, skip_special_tokens=True)] *)
  decode : Tok → list Z → string;
  (** [torch.cuda.is_available()] *)
  cuda_is_available : bool;
  (** [model.generate] on the tensors of a batch with a forced first
      token, for a model placed on a device with a dtype *)
  generate : Net → device → dtype → Batch → Z → option (list (list Z));
  (** [import torch_tensorrt] succeeds *)
  tensorrt_installed : bool;
  (** [torch.randn((batch_size, max_length)).to("cuda")] *)
  randn_cuda : Z → Z → option Tensor;
  (** [torch.jit.trace(model, [x])] *)
  jit_trace : Net → Tensor → option Traced;
  (** [torch_tensorrt.compile(traced, inputs=[Input((b, m), dtype)],
      enabled_precisions={dtype})] *)
  tensorrt_compile : Traced → Z → Z → dtype → option Engine;
  (** [generate] called on a compiled model *)
  engine_generate : Engine → Batch → Z → option (list (list Z))
}.

(** ** The helper module [dataset] *)

Module Dataset.

(** Consecutive groups of [n] elements, the last one possibly shorter. *)
Fixpoint chunks_fuel {A} (fuel n : nat) (l : list A) : list (list A) :=
  match fuel with
  | O => []
  | S fuel' =>
      match l with
      | [] => []
      | _ => take n l :: chunks_fuel fuel' n (drop n l)
      end
  end.

Definition chunks {A} (n : nat) (l : list A) : list (list A) :=
  chunks_fuel (length l) n l.

(** Modelled from the spec: [dataset] is not among the sources; the
    sentences its loader batches are the "non-empty text lines" of the
    file, "preserving file order". *)
Definition sentences (content : string) : list string :=
  filter (λ l, Is_true (negb (Text.is_empty l))) (Text.lines content).

(** Modelled from the spec: the batching helper [dataset.get_dataloader]
    is not among the sources.  The input reader "produces a lazy,
    restartable-by-reopening sequence of fixed-size batches of non-empty
    text lines, preserving file order"; a sentence batch is an "ordered
    sequence of raw text lines, fixed maximum size (configurable batch
    size)".  The spec gives no behaviour for a batch size below one. *)
Definition sentence_batches (batch_size : Z) (content : string) : list (list string) :=
  chunks (Z.to_nat batch_size) (sentences content).

(** Modelled from the spec: the line-counting helper [dataset.count_lines]
    is not among the sources; "given a file path, returns total line
    count", and "fails with a file-not-found error if the path is
    invalid". *)
Definition count_lines (path : string) : M nat :=
  (do! emit (CountLines path) in
   let! content := fs_query (FS.read path) in
   ret (length (Text.lines content)))%py.

Section WithLib.
Context (L : Lib).

(** The tokenizer object: the loaded tokenizer and its attribute
    [src_lang]. *)
Record Tokenizer := mkTokenizer {
  tok : Tok L;
  src_lang : option string
}.

(** The dataloader object: it keeps its arguments and reads nothing
    until it is iterated. *)
Record DataLoader := mkDataLoader {
  dl_filename : string;
  dl_tokenizer : Tokenizer;
  dl_batch_size : Z;
  dl_max_length : Z
}.

(** Modelled from the spec: [dataset.get_dataloader] is not among the
    sources.  Constructing the loader reads nothing (the sequence is
    "lazy"). *)
Definition get_dataloader (filename : string) (tokenizer : Tokenizer)
    (batch_size max_length : Z) : M DataLoader :=
  (do! emit (GetDataloader filename batch_size max_length) in
   ret (mkDataLoader filename tokenizer batch_size max_length))%py.

(** Modelled from the spec: a tokenized batch holds the tensors of one
    sentence batch, "truncated/padded to a maximum length", made by the
    tokenizer of the loader. *)
Definition tokenized_batches (dl : DataLoader) (content : string) : list Batch :=
  map (encode L (tok (dl_tokenizer dl)) (src_lang (dl_tokenizer dl)) (dl_max_length dl))
      (sentence_batches (dl_batch_size dl) content).

(** Modelled from the spec: iterating the loader opens the file anew
    ("restartable-by-reopening") and yields its batches in file order. *)
Definition iterate (dl : DataLoader) : M (list Batch) :=
  (let! content := fs_query (FS.read (dl_filename dl)) in
   ret (tokenized_batches dl content))%py.

End WithLib.

Arguments mkTokenizer {L} _ _.
Arguments tok {L} _.
Arguments src_lang {L} _.
Arguments mkDataLoader {L} _ _ _ _.
Arguments dl_filename {L} _.
Arguments dl_tokenizer {L} _.
Arguments dl_batch_size {L} _.
Arguments dl_max_length {L} _.
Arguments get_dataloader {L} _ _ _ _.
Arguments tokenized_batches {L} _ _.
Arguments iterate {L} _.

End Dataset.

(** ** [translate.py] *)

Import Dataset.

(** The parameters of [main]. *)
Record Args := mkArgs {
  sentences_path : string;
  output_path : string;
  source_lang : string;
  target_lang : string;
  batch_size : Z;
  model_name : string;
  tensorrt : bool;
  precision : Z;
  max_length : Z
}.

Definition set_max_length (a : Args) (m : Z) : Args :=
  mkArgs (sentences_path a) (output_path a) (source_lang a) (target_lang a)
         (batch_size a) (model_name a) (tensorrt a) (precision a) m.

Section Translate.
Context (L : Lib).

(** The value of the variable [model]: the loaded network on its device
    with its dtype, or the module the compiler returned. *)
Inductive Model :=
| Eager (net : Net L) (dev : device) (dt : dtype)
| Compiled (engine : Engine L).

Definition is_compiled (m : Model) : bool :=
  match m with
  | Eager _ _ _ => false
  | Compiled _ => true
  end.

Definition M2M100Tokenizer_from_pretrained (name : string) : M (Tokenizer L) :=
  (do! emit (TokenizerFromPretrained name) in
   let! t := from_option OSError (tokenizer_from_pretrained L name) in
   ret (mkTokenizer t None))%py.

Definition M2M100ForConditionalGeneration_from_pretrained (name : string) : M (Net L) :=
  (do! emit (ModelFromPretrained name) in
   from_option OSError (model_from_pretrained L name))%py.

(** [tokenizer.src_lang = lang] *)
Definition set_src_lang (t : Tokenizer L) (lang : string) : Tokenizer L :=
  mkTokenizer (tok t) (Some lang).

(** [tokenizer.lang_code_to_id[lang]] *)
Definition lang_code_to_id_getitem (t : Tokenizer L) (lang : string) : M Z :=
  from_option (KeyError lang) (lang_code_to_id L (tok t) lang).

(** [model.to(dev, dtype=dt)] *)
Definition model_to (net : Net L) (dev : device) (dt : dtype) : M Model :=
  (do! emit (ModelTo dev dt) in
   ret (Eager net dev dt))%py.

(** The branch [if tensorrt:] of [main]. *)
Definition compile_with_tensorrt (net : Net L) (batch_size max_length : Z)
    (dt : dtype) : M Model :=
  (do! emit ImportTensorrt in
   do! (if tensorrt_installed L then ret tt else raise ImportError) in
   let! x := from_option RuntimeError (randn_cuda L batch_size max_length) in
   do! emit (JitTrace batch_size max_length) in
   let! traced_model := from_option RuntimeError (jit_trace L net x) in
   do! emit (TensorrtCompile batch_size max_length dt) in
   let! engine := from_option RuntimeError
                    (tensorrt_compile L traced_model batch_size max_length dt) in
   ret (Compiled engine))%py.

(** What [generate] returns on the current value of [model]. *)
Definition generate_with (m : Model) (batch : Batch) (forced_bos_token_id : Z)
    : option (list (list Z)) :=
  match m with
  | Eager net dev dt => generate L net dev dt batch forced_bos_token_id
  | Compiled engine => engine_generate L engine batch forced_bos_token_id
  end.

(** [model.generate] on the tensors of [batch], with
    [forced_bos_token_id]. *)
Definition model_generate (m : Model) (batch : Batch) (forced_bos_token_id : Z)
    : M (list (list Z)) :=
  (do! emit (Generate (is_compiled m) (length (input_ids batch)) forced_bos_token_id) in
   from_option RuntimeError (generate_with m batch forced_bos_token_id))%py.

(** [tokenizer.batch_decode(tokens, skip_special_tokens=True)] *)
Definition batch_decode (t : Tokenizer L) (tokens : list (list Z)) : list string :=
  map (decode L (tok t)) tokens.

(** [print(text, file=output_file)]: the text and a newline. *)
Definition print_to_file (path : string) (text : string) : M unit :=
  (do! emit (FileWrite path (text +:+ Text.NL)) in
   λ w, (Ok tt, {| fs := FS.append path (text +:+ Text.NL) (fs w); trace := trace w |}))%py.

(** [with tqdm(total=total, ...) as pbar:] *)
Definition with_tqdm {A} (total : nat) (body : M A) : M A :=
  (do! emit (PbarOpen total) in
   finally body (emit PbarClose))%py.

(** [with open(path, "w+", encoding="utf-8") as output_file:] *)
Definition with_open {A} (path : string) (body : M A) : M A :=
  (do! emit (FileOpen path) in
   do! fs_update (FS.open_truncate path) in
   finally body (emit (FileClose path)))%py.

(** The body of the loop [for batch in data_loader:]. *)
Definition translate_batch (tokenizer : Tokenizer L) (model : Model)
    (lang_code_to_idx : Z) (out : string) (batch : Batch) : M unit :=
  (let! generated_tokens := model_generate model batch lang_code_to_idx in
   let tgt_text := batch_decode tokenizer generated_tokens in
   do! print_to_file out (Text.join Text.NL tgt_text) in
   emit (PbarUpdate (length tgt_text)))%py.

(** The first statement of [main]: the directory of the output file is
    created when [os.path.exists] does not find it. *)
Definition ensure_output_dir (out : string) : M unit :=
  (let! there := os_path_exists (Path.dirname out) in
   if negb there then os_makedirs (Path.dirname out) else ret tt)%py.

(** The chain [if precision == 16: ... else: raise ValueError(...)]. *)
Definition select_dtype (precision : Z) : M dtype :=
  match precision with
  | 16 => ret float16
  | 32 => ret float32
  | 64 => ret float64
  | _ => raise (ValueError "Precision must be 16, 32 or 64.")
  end.

(** The statement [if tensorrt: ... else: ...], which rebinds or moves
    [model]. *)
Definition place_model (a : Args) (net : Net L) (dt : dtype) : M Model :=
  (if tensorrt a
   then compile_with_tensorrt net (batch_size a) (max_length a) dt
   else if cuda_is_available L
        then model_to net cuda dt
        else (let! m := model_to net cpu dt in
              do! print "CUDA not available. Using CPU. This will be slow." in
              ret m))%py.

(** The statement [with tqdm(...) as pbar, open(...) as output_file:].
    The loader is iterated inside it, after the output file was opened. *)
Definition translate_file (tokenizer : Tokenizer L) (model : Model)
    (lang_code_to_idx : Z) (total_lines : nat) (data_loader : DataLoader L)
    (out : string) : M unit :=
  with_tqdm total_lines
    (with_open out
       (let! batches := iterate data_loader in
        for_each (translate_batch tokenizer model lang_code_to_idx out) batches))%py.

(** [main] *)
Definition main (a : Args) : M unit :=
  (do! ensure_output_dir (output_path a) in
   do! print "Loading tokenizer..." in
   let! tokenizer := M2M100Tokenizer_from_pretrained (model_name a) in
   do! print "Loading model..." in
   let! net := M2M100ForConditionalGeneration_from_pretrained (model_name a) in
   do! print ("Model loaded." +:+ Text.NL) in
   let tokenizer := set_src_lang tokenizer (source_lang a) in
   let! lang_code_to_idx := lang_code_to_id_getitem tokenizer (target_lang a) in
   do! emit ModelEval in
   let! total_lines := count_lines (sentences_path a) in
   do! print ("We will translate " +:+ pretty total_lines +:+ " lines.") in
   let! data_loader := get_dataloader (sentences_path a) tokenizer (batch_size a) 128 in
   let! dt := select_dtype (precision a) in
   let! model := place_model a net dt in
   do! translate_file tokenizer model lang_code_to_idx total_lines data_loader
         (output_path a) in
   print ("Translation done." +:+ Text.NL))%py.

(** *** The command line *)

(** A command line as the words the parser takes for options: [Opt name
    value] is the word [name=value] (what [name value] is parsed as when
    [value] is not itself taken for an option), [Flag name] the word
    [name] alone.  Words that are no options (stray values) are left
    out. *)
Inductive cli_arg :=
| Opt (name value : string)
| Flag (name : string).

Definition arg_name (arg : cli_arg) : string :=
  match arg with
  | Opt name _ => name
  | Flag name => name
  end.

(** The options of the parser: the eight of lines 93-147, and the help
    option [ArgumentParser] adds by default (line 92). *)
Inductive option_id :=
| opt_help
| opt_sentences_path
| opt_output_path
| opt_source_lang
| opt_target_lang
| opt_batch_size
| opt_model_name
| opt_precision
| opt_tensorrt.

#[global] Instance option_id_eq_dec : EqDecision option_id.
Proof. solve_decision. Defined.

(** The option strings, in the order they were registered. *)
Definition option_strings : list (string * option_id) :=
  [("-h", opt_help); ("--help", opt_help);
   ("--sentences_path", opt_sentences_path);
   ("--output_path", opt_output_path);
   ("--source_lang", opt_source_lang);
   ("--target_lang", opt_target_lang);
   ("--batch_size", opt_batch_size);
   ("--model_name", opt_model_name);
   ("--precision", opt_precision);
   ("--tensorrt", opt_tensorrt)].

(** What the parser takes an option string for: the option of that very
    name; otherwise, for a string that starts with [--], the one option
    it abbreviates ([allow_abbrev] is on by default), an ambiguity when
    it abbreviates several, and no option of the parser when it
    abbreviates none. *)
Inductive resolution :=
| Resolved (o : option_id)
| Ambiguous
| Unknown.

#[global] Instance resolution_eq_dec : EqDecision resolution.
Proof. solve_decision. Defined.

Definition resolve (name : string) : resolution :=
  match List.find (λ p, String.eqb name p.1) option_strings with
  | Some p => Resolved p.2
  | None =>
      if String.prefix "--" name then
        match List.filter (λ p, String.prefix name p.1) option_strings with
        | [] => Unknown
        | [p] => Resolved p.2
        | _ => Ambiguous
        end
      else Unknown
  end.

(** The words this model reads as the parser does.  The option string
    starts with [--], is longer, and holds no [=] and no space; [-h] is
    an option string too, for a word without value (the parser reads
    [-h=x] as a cluster of one-letter options).  A word that names no
    option of the parser holds no space at all (the parser would take it
    for a value). *)
Definition long_option (name : string) : bool :=
  String.prefix "--" name && negb (String.eqb name "--")
  && negb (Text.has_char "=" name) && negb (Text.has_char " " name).

Definition option_word (arg : cli_arg) : bool :=
  match arg with
  | Opt name v =>
      long_option name
      && (negb (bool_decide (resolve name = Unknown)) || negb (Text.has_char " " v))
  | Flag name => String.eqb name "-h" || long_option name
  end.

(** How the parser leaves the script: [parser.error] with its message
    (status 2), or the help action (status 0). *)
Inductive parser_exit :=
| Usage (msg : string)
| Help.

Definition exit_status (e : parser_exit) : Z :=
  match e with
  | Usage _ => 2
  | Help => 0
  end.

(** The namespace [argparse] builds: a required option is absent until
    it is given; the others start at their defaults. *)
Record Namespace := mkNamespace {
  ns_sentences_path : option string;
  ns_output_path : option string;
  ns_source_lang : option string;
  ns_target_lang : option string;
  ns_batch_size : Z;
  ns_model_name : string;
  ns_precision : Z;
  ns_tensorrt : bool
}.

Definition defaults : Namespace :=
  mkNamespace None None None None 8 "facebook/m2m100_1.2B" 32 false.

(** [choices=[16, 32, 64]] *)
Definition precision_choices : list Z := [16; 32; 64].

(** An option given with a value: the value is converted by the [type]
    of the option, checked against its [choices] and stored.  The two
    options that take no value refuse one. *)
Definition store (ns : Namespace) (o : option_id) (v : string) : parser_exit + Namespace :=
  match o with
  | opt_sentences_path =>
      inr (mkNamespace (Some v) (ns_output_path ns) (ns_source_lang ns) (ns_target_lang ns)
             (ns_batch_size ns) (ns_model_name ns) (ns_precision ns) (ns_tensorrt ns))
  | opt_output_path =>
      inr (mkNamespace (ns_sentences_path ns) (Some v) (ns_source_lang ns) (ns_target_lang ns)
             (ns_batch_size ns) (ns_model_name ns) (ns_precision ns) (ns_tensorrt ns))
  | opt_source_lang =>
      inr (mkNamespace (ns_sentences_path ns) (ns_output_path ns) (Some v) (ns_target_lang ns)
             (ns_batch_size ns) (ns_model_name ns) (ns_precision ns) (ns_tensorrt ns))
  | opt_target_lang =>
      inr (mkNamespace (ns_sentences_path ns) (ns_output_path ns) (ns_source_lang ns) (Some v)
             (ns_batch_size ns) (ns_model_name ns) (ns_precision ns) (ns_tensorrt ns))
  | opt_batch_size =>
      match py_int L v with
      | Some n =>
          inr (mkNamespace (ns_sentences_path ns) (ns_output_path ns) (ns_source_lang ns)
                 (ns_target_lang ns) n (ns_model_name ns) (ns_precision ns) (ns_tensorrt ns))
      | None => inl (Usage "argument --batch_size: invalid int value")
      end
  | opt_model_name =>
      inr (mkNamespace (ns_sentences_path ns) (ns_output_path ns) (ns_source_lang ns)
             (ns_target_lang ns) (ns_batch_size ns) v (ns_precision ns) (ns_tensorrt ns))
  | opt_precision =>
      match py_int L v with
      | Some n =>
          if bool_decide (n ∈ precision_choices) then
            inr (mkNamespace (ns_sentences_path ns) (ns_output_path ns) (ns_source_lang ns)
                   (ns_target_lang ns) (ns_batch_size ns) (ns_model_name ns) n (ns_tensorrt ns))
          else inl (Usage "argument --precision: invalid choice")
      | None => inl (Usage "argument --precision: invalid int value")
      end
  | opt_help => inl (Usage "argument -h/--help: ignored explicit argument")
  | opt_tensorrt => inl (Usage "argument --tensorrt: ignored explicit argument")
  end.

(** One step of [parse_args], on one word: an option with its value is
    stored; [--tensorrt] alone sets the flag; the help option alone
    prints the help and leaves; an option that takes a value and has
    none is an error.  A word that names no option of the parser is set
    aside: it is reported only when every word was read. *)
Definition parse_arg (ns : Namespace) (arg : cli_arg) : parser_exit + Namespace :=
  match resolve (arg_name arg) with
  | Unknown => inr ns
  | Ambiguous => inl (Usage "ambiguous option")
  | Resolved o =>
      match arg with
      | Opt _ v => store ns o v
      | Flag _ =>
          match o with
          | opt_help => inl Help
          | opt_tensorrt =>
              inr (mkNamespace (ns_sentences_path ns) (ns_output_path ns) (ns_source_lang ns)
                     (ns_target_lang ns) (ns_batch_size ns) (ns_model_name ns)
                     (ns_precision ns) true)
          | _ => inl (Usage "expected one argument")
          end
      end
  end.

Fixpoint parse_known (ns : Namespace) (argv : list cli_arg) : parser_exit + Namespace :=
  match argv with
  | [] => inr ns
  | arg :: rest =>
      match parse_arg ns arg with
      | inl e => inl e
      | inr ns' => parse_known ns' rest
      end
  end.

(** [parser.parse_args()], as CPython 3.11 runs it.  Every word is
    first looked up, and an ambiguous abbreviation is an error before
    any option is acted on; then the words are read in order; then
    come the check that every [required=True] option was given and the
    report of the words that name no option.  The result holds the
    arguments [__main__] passes to [main], which leaves [max_length] at
    its default. *)
Definition parse_args (argv : list cli_arg) : parser_exit + Args :=
  if existsb (λ arg, bool_decide (resolve (arg_name arg) = Ambiguous)) argv
  then inl (Usage "ambiguous option")
  else
    match parse_known defaults argv with
    | inl e => inl e
    | inr ns =>
        match ns_sentences_path ns, ns_output_path ns, ns_source_lang ns, ns_target_lang ns with
        | Some sp, Some op, Some sl, Some tl =>
            if existsb (λ arg, bool_decide (resolve (arg_name arg) = Unknown)) argv
            then inl (Usage "unrecognized arguments")
            else inr (mkArgs sp op sl tl (ns_batch_size ns) (ns_model_name ns)
                             (ns_tensorrt ns) (ns_precision ns) 128)
        | _, _, _, _ => inl (Usage "the following arguments are required")
        end
    end.

(** The script run from the command line: its exit status and the world
    it leaves.  The parser leaves before [main] is entered, with status
    2 after [parser.error] and 0 after the help; an uncaught exception
    of [main] exits with status 1. *)
Definition script (argv : list cli_arg) (w : World) : Z * World :=
  match parse_args argv with
  | inl e => (exit_status e, w)
  | inr a =>
      match main a w with
      | (Ok _, w') => (0, w')
      | (Raise _, w') => (1, w')
      end
  end.

End Translate.

Arguments Eager {L} _ _ _.
Arguments Compiled {L} _.
Arguments is_compiled {L} _.
Arguments Opt _ _ : clear implicits.
Arguments Flag _ : clear implicits.

(** ** Observations on a run *)

(** The calls a computation adds to the trace. *)
Definition events_of {A} (c : M A) (w : World) : list event :=
  drop (length (trace w)) (trace (c w).2).

(** The width in bits of a floating-point dtype. *)
Definition dtype_bits (dt : dtype) : Z :=
  match dt with
  | float16 => 16
  | float32 => 32
  | float64 => 64
  end.

(** A call that loads the tokenizer or the model. *)
Definition is_load (e : event) : bool :=
  match e with
  | TokenizerFromPretrained _ | ModelFromPretrained _ => true
  | _ => false
  end.

(** The standard placement [model.to(device, dtype)]. *)
Definition is_model_to (e : event) : bool :=
  match e with
  | ModelTo _ _ => true
  | _ => false
  end.

(** A call of the compilation path: the import, the tracer, the compiler. *)
Definition is_tensorrt (e : event) : bool :=
  match e with
  | ImportTensorrt | JitTrace _ _ | TensorrtCompile _ _ _ => true
  | _ => false
  end.

(** The placements, the dataloader constructions and the kinds of model
    that generated, as a trace records them. *)
Definition placements (es : list event) : list (device * dtype) :=
  omap (λ e, match e with ModelTo dev dt => Some (dev, dt) | _ => None end) es.

Definition dataloader_calls (es : list event) : list (string * Z * Z) :=
  omap (λ e, match e with GetDataloader f b m => Some (f, b, m) | _ => None end) es.

Definition generate_modes (es : list event) : list bool :=
  omap (λ e, match e with Generate c _ _ => Some c | _ => None end) es.

Definition tensorrt_calls (es : list event) : list event :=
  omap (λ e, if is_tensorrt e then Some e else None) es.

(** The text one batch of decoded sentences adds to the output file, and
    the text a sequence of batches adds. *)
Definition batch_text (tgt_text : list string) : string :=
  Text.join Text.NL tgt_text +:+ Text.NL.

Fixpoint written (decoded : list (list string)) : string :=
  match decoded with
  | [] => ""
  | tgt_text :: rest => batch_text tgt_text +:+ written rest
  end.

Section Erasure.
Context (L : Lib).

(** The first statement of [main] on the file system alone. *)
Definition dir_step (out : string) (fs : FS.t) : Result FS.t :=
  if FS.path_exists fs (Path.dirname out) then Ok fs
  else FS.makedirs (Path.dirname out) fs.

Definition dtype_of (precision : Z) : option dtype :=
  match precision with
  | 16 => Some float16
  | 32 => Some float32
  | 64 => Some float64
  | _ => None
  end.

(** The value [model] has after the statement [if tensorrt: ...], when
    it completes. *)
Definition placed (a : Args) (net : Net L) (dt : dtype) : option (Model L) :=
  if tensorrt a then
    if tensorrt_installed L then
      x ← randn_cuda L (batch_size a) (max_length a);
      traced ← jit_trace L net x;
      engine ← tensorrt_compile L traced (batch_size a) (max_length a) dt;
      Some (Compiled engine)
    else None
  else Some (Eager net (if cuda_is_available L then cuda else cpu) dt).

(** The decoded sentences of every batch, when every [generate]
    completes. *)
Definition decode_all (t : Tokenizer L) (m : Model L) (bos : Z)
    (batches : list Batch) : option (list (list string)) :=
  mapM (λ b, batch_decode L t <$> generate_with L m b bos) batches.

Definition result_to_option {A} (r : Result A) : option A :=
  match r with
  | Ok a => Some a
  | Raise _ => None
  end.

(** The loader [main] builds. *)
Definition loader (a : Args) (t : Tok L) : DataLoader L :=
  mkDataLoader (sentences_path a) (mkTokenizer t (Some (source_lang a)))
               (batch_size a) 128.

(** The calls of the first statement of [main]. *)
Definition dir_events (out : string) (fs : FS.t) : list event :=
  if FS.path_exists fs (Path.dirname out) then [] else [MakeDirs (Path.dirname out)].

(** The calls of the statement [if tensorrt: ...] when it completes. *)
Definition place_events (a : Args) (dt : dtype) : list event :=
  if tensorrt a then
    [ImportTensorrt; JitTrace (batch_size a) (max_length a);
     TensorrtCompile (batch_size a) (max_length a) dt]
  else if cuda_is_available L then [ModelTo cuda dt]
  else [ModelTo cpu dt; Print "CUDA not available. Using CPU. This will be slow."].

(** The calls of the loop, batch after batch. *)
Fixpoint loop_events (out : string) (compiled : bool) (bos : Z)
    (batches : list Batch) (decoded : list (list string)) : list event :=
  match batches, decoded with
  | b :: batches', tgt_text :: decoded' =>
      Generate compiled (length (input_ids b)) bos
      :: FileWrite out (batch_text tgt_text)
      :: PbarUpdate (length tgt_text)
      :: loop_events out compiled bos batches' decoded'
  | _, _ => []
  end.

(** A completed run of [main] in closed form: the file system it leaves
    and the calls it made. *)
Definition run (a : Args) (fs : FS.t) : option (FS.t * list event) :=
  fs0 ← result_to_option (dir_step (output_path a) fs);
  t ← tokenizer_from_pretrained L (model_name a);
  net ← model_from_pretrained L (model_name a);
  bos ← lang_code_to_id L t (target_lang a);
  content0 ← result_to_option (FS.read (sentences_path a) fs0);
  dt ← dtype_of (precision a);
  model ← placed a net dt;
  fs1 ← result_to_option (FS.open_truncate (output_path a) fs0);
  content ← result_to_option (FS.read (sentences_path a) fs1);
  decoded ← decode_all (mkTokenizer t (Some (source_lang a))) model bos
               (tokenized_batches (loader a t) content);
  Some (FS.append (output_path a) (written decoded) fs1,
        dir_events (output_path a) fs
        ++ [Print "Loading tokenizer..."; TokenizerFromPretrained (model_name a);
            Print "Loading model..."; ModelFromPretrained (model_name a);
            Print ("Model loaded." +:+ Text.NL); ModelEval;
            CountLines (sentences_path a);
            Print ("We will translate " +:+ pretty (length (Text.lines content0))
                   +:+ " lines.");
            GetDataloader (sentences_path a) (batch_size a) 128]
        ++ place_events a dt
        ++ [PbarOpen (length (Text.lines content0)); FileOpen (output_path a)]
        ++ loop_events (output_path a) (is_compiled model) bos
             (tokenized_batches (loader a t) content) decoded
        ++ [FileClose (output_path a); PbarClose;
            Print ("Translation done." +:+ Text.NL)]).

(** The calls a run of [main] may make, whether it completes or not. *)
Definition main_event (a : Args) (e : event) : Prop :=
  match e with
  | Print _ | ModelEval | PbarOpen _ | PbarUpdate _ | PbarClose => True
  | MakeDirs p => p = Path.dirname (output_path a)
  | TokenizerFromPretrained n | ModelFromPretrained n => n = model_name a
  | CountLines p => p = sentences_path a
  | GetDataloader f b m => f = sentences_path a ∧ b = batch_size a ∧ m = 128
  | ImportTensorrt => tensorrt a = true
  | JitTrace b m =>
      tensorrt a = true ∧ b = batch_size a ∧ m = max_length a
  | TensorrtCompile b m dt =>
      tensorrt a = true ∧ b = batch_size a ∧ m = max_length a
      ∧ dtype_bits dt = precision a
  | ModelTo dev dt =>
      tensorrt a = false ∧ dev = (if cuda_is_available L then cuda else cpu)
      ∧ dtype_bits dt = precision a
  | FileOpen p | FileClose p | FileWrite p _ => p = output_path a
  | Generate compiled _ _ => compiled = tensorrt a
  end.

End Erasure.


(** ** A small instance of the collaborators

    Used to run the model on concrete files: sentences are encoded as
    their character codes, the model reverses every row, and decoding maps
    codes back to characters (a newline code is decoded as a space). *)

Module Toy.

Fixpoint digits_value (acc : Z) (s : string) : option Z :=
  match s with
  | "" => Some acc
  | String c r =>
      match Ascii.is_nat c with
      | Some d => digits_value (10 * acc + Z.of_nat d) r
      | None => None
      end
  end.

Definition int_of_string (s : string) : option Z :=
  match s with
  | "" => None
  | _ => digits_value 0 s
  end.

Definition encode_text (s : string) : list Z :=
  map (λ c, Z.of_N (N_of_ascii c)) (list_ascii_of_string s).

Definition encode (texts : list string) : Batch :=
  mkBatch (map encode_text texts) (map (λ s, map (λ _, 1) (encode_text s)) texts).

Definition decode_char (z : Z) : ascii :=
  let c := ascii_of_N (Z.to_N z) in
  if Ascii.eqb c Text.nl then " "%char else c.

Definition decode (ids : list Z) : string :=
  string_of_list_ascii (map decode_char ids).

Definition lang_id (lang : string) : option Z :=
  if String.eqb lang "es" then Some 128022
  else if String.eqb lang "en" then Some 128022
  else None.

Definition lib (has_cuda : bool) : Lib :=
  mkLib unit unit unit unit unit
    int_of_string
    (λ _, Some tt) (λ _, Some tt)
    (λ _, lang_id)
    (λ _ _ _, encode)
    (λ _, decode)
    has_cuda
    (λ _ _ _ b _, Some (map (@rev Z) (input_ids b)))
    true (λ _ _, Some tt) (λ _ _, Some tt) (λ _ _ _ _, Some tt)
    (λ _ b _, Some (map (@rev Z) (input_ids b))).

(** A file of four lines, one of them empty. *)
Definition input_text : string :=
  "ab" +:+ Text.NL +:+ "cd" +:+ Text.NL +:+ Text.NL +:+ "ef".

Definition world : World :=
  mkWorld (FS.mk ∅ {[ ["in.txt"] := input_text ]}) [].

Definition empty_world : World :=
  mkWorld (FS.mk ∅ {[ ["in.txt"] := "" ]}) [].

Definition args : Args :=
  mkArgs "in.txt" "out/res.txt" "en" "es" 2 "facebook/m2m100_1.2B" false 32 128.

Definition args_tensorrt : Args :=
  mkArgs "in.txt" "out/res.txt" "en" "es" 2 "facebook/m2m100_1.2B" true 16 64.

Definition args_bare : Args :=
  mkArgs "in.txt" "res.txt" "en" "es" 2 "facebook/m2m100_1.2B" false 32 128.

Definition args_precision_8 : Args :=
  mkArgs "in.txt" "out/res.txt" "en" "es" 2 "facebook/m2m100_1.2B" false 8 128.


Definition argv : list cli_arg :=
  [Opt "--sentences_path" "in.txt"; Opt "--output_path" "out/res.txt";
   Opt "--source_lang" "en"; Opt "--target_lang" "es"; Opt "--batch_size" "2"].

(** A target language the tokenizer does not know. *)
Definition args_unknown_lang : Args :=
  mkArgs "in.txt" "out/res.txt" "en" "xx" 2 "facebook/m2m100_1.2B" false 32 128.

(** An output path that names a directory. *)
Definition args_dir_output : Args :=
  mkArgs "in.txt" "out/" "en" "es" 2 "facebook/m2m100_1.2B" false 32 128.


(** The required [--target_lang] left out. *)
Definition argv_no_target : list cli_arg :=
  [Opt "--sentences_path" "in.txt"; Opt "--output_path" "out/res.txt";
   Opt "--source_lang" "en"; Flag "--tensorrt"].





(** Abbreviated options, the last value of a repeated option, and the
    flag. *)
Definition argv_abbreviated : list cli_arg :=
  [Opt "--se" "in.txt"; Opt "--o" "out/res.txt"; Opt "--source" "en";
   Opt "--ta" "fr"; Opt "--target_lang" "es"; Opt "--prec" "16"; Flag "--te"].

(** A fragile installation: [generate] fails on a batch of a single row,
    and the module [torch_tensorrt] is missing. *)
Definition generate_fragile (b : Batch) : option (list (list Z)) :=
  if Nat.eqb (length (input_ids b)) 1
  then None
  else Some (map (@rev Z) (input_ids b)).

Definition lib_fragile : Lib :=
  mkLib unit unit unit unit unit
    int_of_string
    (λ _, Some tt) (λ _, Some tt)
    (λ _, lang_id)
    (λ _ _ _, encode)
    (λ _, decode)
    false
    (λ _ _ _ b _, generate_fragile b)
    false (λ _ _, Some tt) (λ _ _, Some tt) (λ _ _ _ _, Some tt)
    (λ _ b _, generate_fragile b).

End Toy.


Section Observed.
Context (L : Lib).


(** The call that opens each branch of the statement [if tensorrt: ...]:
    the import of the compiler, or the standard placement on the
    accelerator when there is one and on the CPU otherwise. *)
Definition placement_call (a : Args) (dt : dtype) : event :=
  if tensorrt a then ImportTensorrt
  else ModelTo (if cuda_is_available L then cuda else cpu) dt.



End Observed.


(** [emits P Q c]: every call [c] records satisfies [P], and a result of
    [c] satisfies [Q]. *)
Definition emits {A} (P : event → Prop) (Q : A → Prop) (c : M A) : Prop :=
  ∀ w, ∃ es, trace (c w).2 = trace w ++ es ∧ Forall P es ∧
             match (c w).1 with
             | Ok a => Q a
             | Raise _ => True
             end.

(** ** Judgements on every run *)

(** A relation between the file system before, the calls recorded and the
    file system after that holds of no call and of runs put end to end. *)
Class Composable (R : FS.t → list event → FS.t → Prop) : Prop := {
  composable_nil : ∀ f, R f [] f;
  composable_app : ∀ f0 f1 f2 es1 es2,
      R f0 es1 f1 → R f1 es2 f2 → R f0 (es1 ++ es2) f2
}.

(** [keeps R Q c]: whatever the outcome, [c] relates the file system it
    finds, the calls it records and the file system it leaves by [R]; a
    result of [c] satisfies [Q]. *)
Definition keeps {A} (R : FS.t → list event → FS.t → Prop) (Q : A → Prop)
    (c : M A) : Prop :=
  ∀ w, ∃ es, trace (c w).2 = trace w ++ es
             ∧ R (fs w) es (fs (c w).2)
             ∧ match (c w).1 with
               | Ok a => Q a
               | Raise _ => True
               end.



(** The file system changes a run of [main] is allowed: directories are
    only added, and no file but the output file changes. *)
Definition only_output_changes (out : string) (f0 : FS.t) (es : list event)
    (f1 : FS.t) : Prop :=
  FS.dirs f0 ⊆ FS.dirs f1
  ∧ ∀ k, k ≠ Path.key out → FS.files f1 !! k = FS.files f0 !! k.

(** As long as the output file was not opened, no file changed. *)
Definition files_kept_until_open (out : string) (f0 : FS.t) (es : list event)
    (f1 : FS.t) : Prop :=
  FileOpen out ∉ es → FS.files f1 = FS.files f0.

(** The last message of [main]. *)
Definition done_message : event := Print ("Translation done." +:+ Text.NL).


(** The forced first tokens of the calls to [generate]. *)
Definition forced_bos_ids (es : list event) : list Z :=
  omap (λ e, match e with Generate _ _ bos => Some bos | _ => None end) es.

(** The values given for an option on a command line, in order, and
    whether an option was given as a bare flag.  An occurrence belongs
    to the option its name stands for, in full or abbreviated. *)
Definition arg_value (o : option_id) (arg : cli_arg) : option string :=
  match arg with
  | Opt n v => if bool_decide (resolve n = Resolved o) then Some v else None
  | Flag _ => None
  end.

Definition given (o : option_id) (argv : list cli_arg) : list string :=
  omap (arg_value o) argv.

Definition is_flag (o : option_id) (arg : cli_arg) : bool :=
  match arg with
  | Opt _ _ => false
  | Flag n => bool_decide (resolve n = Resolved o)
  end.

Definition flag_given (o : option_id) (argv : list cli_arg) : bool :=
  existsb (is_flag o) argv.

(** The options declared with [required=True]. *)
Definition required_options : list option_id :=
  [opt_sentences_path; opt_output_path; opt_source_lang; opt_target_lang].

(** [ends P e c]: a run of [c] that returns has recorded [e] last, and
    every other call of a run of [c], returning or not, satisfies [P]. *)
Definition ends {A} (P : event → Prop) (e : event) (c : M A) : Prop :=
  ∀ w, ∃ es, trace (c w).2 = trace w ++ es ∧
             match (c w).1 with
             | Ok _ => ∃ es', es = es' ++ [e] ∧ Forall P es'
             | Raise _ => Forall P es
             end.

(** The first token a call of [generate] may force: the code the loaded
    tokenizer has for the target language. *)
Definition forces_target (L : Lib) (a : Args) (e : event) : Prop :=
  match e with
  | Generate _ _ bos =>
      ∃ t, tokenizer_from_pretrained L (model_name a) = Some t
           ∧ lang_code_to_id L t (target_lang a) = Some bos
  | _ => True
  end.

Section Partial.
Context (L : Lib).

(** The decoded sentences of the batches before the first one [generate]
    fails on, and that batch if there is one. *)
Fixpoint decode_prefix (t : Tokenizer L) (m : Model L) (bos : Z)
    (batches : list Batch) : list (list string) * option Batch :=
  match batches with
  | [] => ([], None)
  | b :: rest =>
      match generate_with L m b bos with
      | None => ([], Some b)
      | Some g =>
          let '(decoded, failed) := decode_prefix t m bos rest in
          (batch_decode L t g :: decoded, failed)
      end
  end.

(** The call on which the loop stopped, if it did, and how the loop ended. *)
Definition failed_call (m : Model L) (bos : Z) (failed : option Batch) : list event :=
  match failed with
  | Some b => [Generate (is_compiled m) (length (input_ids b)) bos]
  | None => []
  end.

Definition loop_result (failed : option Batch) : Result unit :=
  match failed with
  | Some _ => Raise RuntimeError
  | None => Ok tt
  end.

End Partial.

(** * Properties *)

(** ** The model at work *)

Example dirname_nested : Path.dirname "out/es/res.txt" = "out/es".
Proof. reflexivity. Qed.

Example dirname_bare : Path.dirname "res.txt" = "".
Proof. reflexivity. Qed.

Example dirname_root : Path.dirname "/res.txt" = "/".
Proof. reflexivity. Qed.

Example dirname_doubled_sep : Path.dirname "out//res.txt" = "out".
Proof. reflexivity. Qed.

Example key_normalises : Path.key "/out//es/./res.txt" = ["/"; "out"; "es"; "res.txt"].
Proof. reflexivity. Qed.

Example lines_of_input :
  Text.lines Toy.input_text = ["ab"; "cd"; ""; "ef"]
  ∧ sentences Toy.input_text = ["ab"; "cd"; "ef"]
  ∧ sentence_batches 2 Toy.input_text = [["ab"; "cd"]; ["ef"]].
Proof. by vm_compute. Qed.

Example lines_final_newline :
  Text.lines ("ab" +:+ Text.NL) = ["ab"] ∧ Text.lines ("ab" +:+ Text.NL +:+ Text.NL) = ["ab"; ""].
Proof. by vm_compute. Qed.

Example makedirs_creates_ancestors :
  FS.makedirs "out/es" (FS.mk ∅ ∅) = Ok (FS.mk {[ ["out"]; ["out"; "es"] ]} ∅).
Proof. by vm_compute. Qed.

(** A run on the small instance, without accelerator: the calls it makes
    and the file it writes. *)
Example run_on_cpu :
  let '(r, w) := main (Toy.lib false) Toy.args Toy.world in
  r = Ok tt
  ∧ FS.content (fs w) "out/res.txt"
    = Some ("ba" +:+ Text.NL +:+ "dc" +:+ Text.NL +:+ "fe" +:+ Text.NL)
  ∧ trace w
    = [MakeDirs "out"; Print "Loading tokenizer...";
       TokenizerFromPretrained "facebook/m2m100_1.2B"; Print "Loading model...";
       ModelFromPretrained "facebook/m2m100_1.2B"; Print ("Model loaded." +:+ Text.NL);
       ModelEval; CountLines "in.txt"; Print "We will translate 4 lines.";
       GetDataloader "in.txt" 2 128; ModelTo cpu float32;
       Print "CUDA not available. Using CPU. This will be slow.";
       PbarOpen 4; FileOpen "out/res.txt";
       Generate false 2 128022;
       FileWrite "out/res.txt" ("ba" +:+ Text.NL +:+ "dc" +:+ Text.NL); PbarUpdate 2;
       Generate false 1 128022;
       FileWrite "out/res.txt" ("fe" +:+ Text.NL); PbarUpdate 1;
       FileClose "out/res.txt"; PbarClose; Print ("Translation done." +:+ Text.NL)].
Proof. by vm_compute. Qed.

(** The same arguments with TensorRT: the model is traced and compiled,
    never moved, and the compiled module generates. *)
Example run_with_tensorrt :
  let '(r, w) := main (Toy.lib true) Toy.args_tensorrt Toy.world in
  r = Ok tt
  ∧ filter (λ e, Is_true (is_tensorrt e || is_model_to e)) (trace w)
    = [ImportTensorrt; JitTrace 2 64; TensorrtCompile 2 64 float16]
  ∧ generate_modes (trace w) = [true; true].
Proof. by vm_compute. Qed.

(** When the output path names the input file, opening the output
    truncates the input before the loader reads it: the run completes
    and nothing is translated. *)
Example run_over_its_own_input :
  let a := mkArgs "out/in.txt" "out/in.txt" "en" "es" 2 "facebook/m2m100_1.2B" false 32 128 in
  let w := mkWorld (FS.mk {[ ["out"] ]} {[ ["out"; "in.txt"] := Toy.input_text ]}) [] in
  (main (Toy.lib false) a w).1 = Ok tt
  ∧ FS.content (fs (main (Toy.lib false) a w).2) "out/in.txt" = Some "".
Proof. by vm_compute. Qed.

(** From the command line, with the default precision. *)
Example script_exit_zero :
  (script (Toy.lib false) Toy.argv Toy.world).1 = 0.
Proof. by vm_compute. Qed.

(** Options may be abbreviated as long as one option only starts that
    way, and the last value given for an option is the one kept. *)
Example parse_abbreviated :
  parse_args (Toy.lib false) Toy.argv_abbreviated
  = inr (mkArgs "in.txt" "out/res.txt" "en" "es" 8 "facebook/m2m100_1.2B" true 16 128).
Proof. by vm_compute. Qed.

Example resolve_ambiguous :
  resolve "--t" = Ambiguous ∧ resolve "--s" = Ambiguous
  ∧ resolve "--te" = Resolved opt_tensorrt ∧ resolve "--h" = Resolved opt_help
  ∧ resolve "--bogus" = Unknown.
Proof. by vm_compute. Qed.

(** The help stops the parser where it stands: before a value the
    parser would refuse it wins, after it it is not reached; a word that
    names no option does not stop the parser on its way to the help,
    and an ambiguous abbreviation is refused wherever it stands. *)
Example help_in_order :
  script (Toy.lib false) [Flag "--help"; Opt "--precision" "8"] Toy.world = (0, Toy.world)
  ∧ script (Toy.lib false) [Opt "--precision" "8"; Flag "--help"] Toy.world = (2, Toy.world)
  ∧ script (Toy.lib false) [Flag "--bogus"; Flag "-h"] Toy.world = (0, Toy.world)
  ∧ script (Toy.lib false) [Flag "--help"; Opt "--s" "x"] Toy.world = (2, Toy.world)
  ∧ script (Toy.lib false) [Flag "--batch_size"; Flag "--help"] Toy.world = (2, Toy.world)
  ∧ script (Toy.lib false) [Opt "--tensorrt" "1"; Flag "--help"] Toy.world = (2, Toy.world).
Proof. by vm_compute. Qed.

(** ** Text *)

Module TextFacts.
Import Text.

Lemma app_cons (c : ascii) (s t : string) : String c s +:+ t = String c (s +:+ t).
Proof. reflexivity. Qed.

Lemma app_nil_r (s : string) : s +:+ "" = s.
Proof. induction s as [|c s IH]; [done | by rewrite app_cons, IH]. Qed.

Lemma app_assoc (a b c : string) : (a +:+ b) +:+ c = a +:+ (b +:+ c).
Proof. induction a as [|x a IH]; [done | by rewrite !app_cons, IH]. Qed.





End TextFacts.




(** ** Batching *)

Module ChunkFacts.
Import Dataset.





End ChunkFacts.

(** ** The file system *)

Module FSFacts.
Import FS.

Lemma append_empty (p : string) (fs : t) : append p "" fs = fs.
Proof.
  destruct fs as [d f]. unfold append. cbn [dirs files]. f_equal.
  apply alter_id. intros x _. apply TextFacts.app_nil_r.
Qed.

Lemma append_append (p d1 d2 : string) (fs : t) :
  append p d2 (append p d1 fs) = append p (d1 +:+ d2) fs.
Proof.
  unfold append. cbn [dirs files]. f_equal.
  rewrite alter_alter_eq. apply alter_ext. intros x _.
  cbn. by rewrite TextFacts.app_assoc.
Qed.

Lemma content_append (p q d : string) (fs : t) :
  content (append p d fs) q =
  if decide (Path.key p = Path.key q) then (λ c, c +:+ d) <$> content fs q
  else content fs q.
Proof.
  unfold content, append. cbn [files]. rewrite lookup_alter.
  case_decide; [congruence | done].
Qed.

Lemma is_dir_append (p d : string) (fs : t) (k : list string) :
  is_dir (append p d fs) k = is_dir fs k.
Proof. done. Qed.

Lemma prefixes_self (k : list string) : k ≠ [] → k ∈ prefixes k.
Proof.
  induction k as [|c r IH]; [done|]. intros _.
  destruct r as [|c' r].
  - cbn. apply list_elem_of_here.
  - cbn [prefixes]. apply list_elem_of_further.
    apply list_elem_of_fmap. exists (c' :: r). split; [done|]. by apply IH.
Qed.

Lemma makedirs_inv (p : string) (fs fs' : t) :
  makedirs p fs = Ok fs' →
  files fs' = files fs ∧ dirs fs ⊆ dirs fs' ∧ is_dir fs' (Path.key p) = true.
Proof.
  unfold makedirs. destruct (Text.is_empty p); [done|].
  destruct (is_dir fs (Path.key p) || is_file fs (Path.key p)) eqn:E; [done|].
  destruct (existsb _ _); [done|].
  intros [= <-]. cbn [files dirs]. split; [done|]. split; [set_solver|].
  unfold is_dir. cbn [dirs].
  apply orb_false_iff in E as [E _]. unfold is_dir in E.
  apply orb_false_iff in E as [E _]. apply orb_false_iff in E as [E _].
  apply bool_decide_eq_false in E.
  apply orb_true_iff. right. apply bool_decide_eq_true.
  apply elem_of_union_r, elem_of_list_to_set. by apply prefixes_self.
Qed.

Lemma open_truncate_inv (p : string) (fs fs' : t) :
  open_truncate p fs = Ok fs' →
  dirs fs' = dirs fs ∧ files fs' = <[Path.key p := ""]> (files fs).
Proof.
  unfold open_truncate. destruct (Text.is_empty p); [done|].
  destruct (_ || _); [done|].
  destruct (is_dir fs (parent (Path.key p))).
  - by intros [= <-].
  - by destruct (is_file _ _).
Qed.

End FSFacts.

(** ** The loop over the batches *)

Lemma bind_unfold {A B} (c : M A) (k : A → M B) (w : World) :
  bind c k w = match c w with
               | (Ok a, w') => k a w'
               | (Raise e, w') => (Raise e, w')
               end.
Proof. reflexivity. Qed.

Section Loop.
Context (L : Lib).

Lemma decode_all_cons (t : Tokenizer L) (m : Model L) (bos : Z)
    (b : Batch) (batches : list Batch) :
  decode_all L t m bos (b :: batches) =
  match generate_with L m b bos with
  | Some g =>
      match decode_all L t m bos batches with
      | Some decoded => Some (batch_decode L t g :: decoded)
      | None => None
      end
  | None => None
  end.
Proof.
  unfold decode_all. cbn [mapM].
  destruct (generate_with L m b bos); cbn; [|done].
  by destruct (mapM _ batches).
Qed.

(** One turn of the loop. *)
Lemma translate_batch_spec (t : Tokenizer L) (m : Model L) (bos : Z)
    (out : string) (b : Batch) (w : World) :
  translate_batch L t m bos out b w =
  match generate_with L m b bos with
  | Some g =>
      (Ok tt,
       {| fs := FS.append out (batch_text (batch_decode L t g)) (fs w);
          trace := trace w ++ [Generate (is_compiled m) (length (input_ids b)) bos;
                               FileWrite out (batch_text (batch_decode L t g));
                               PbarUpdate (length (batch_decode L t g))] |})
  | None =>
      (Raise RuntimeError,
       {| fs := fs w;
          trace := trace w ++ [Generate (is_compiled m) (length (input_ids b)) bos] |})
  end.
Proof.
  unfold translate_batch, model_generate, print_to_file, bind, emit, from_option,
    ret, raise, batch_text.
  destruct (generate_with L m b bos); cbn; [|done].
  by rewrite <- !app_assoc.
Qed.

(** The loop writes the batches one after the other, and stops at the
    first [generate] that fails. *)
Lemma for_each_translate (t : Tokenizer L) (m : Model L) (bos : Z)
    (out : string) (batches : list Batch) (w : World) :
  match decode_all L t m bos batches with
  | Some decoded =>
      for_each (translate_batch L t m bos out) batches w
      = (Ok tt, {| fs := FS.append out (written decoded) (fs w);
                   trace := trace w ++ loop_events out (is_compiled m) bos batches decoded |})
  | None => ∃ e, (for_each (translate_batch L t m bos out) batches w).1 = Raise e
  end.
Proof.
  revert w. induction batches as [|b batches IH]; intros w.
  - cbn. rewrite FSFacts.append_empty, app_nil_r. by destruct w.
  - rewrite decode_all_cons. cbn [for_each]. rewrite bind_unfold, translate_batch_spec.
    destruct (generate_with L m b bos) as [g|]; [|by eauto].
    match goal with |- context [for_each _ _ ?w1] => specialize (IH w1) end.
    destruct (decode_all L t m bos batches) as [decoded|].
    + rewrite IH. cbn [fs trace loop_events written].
      rewrite FSFacts.append_append, <- !app_assoc. reflexivity.
    + exact IH.
Qed.

End Loop.

(** ** [main] and its erasure *)

Section MainFacts.
Context (L : Lib).

Lemma select_dtype_spec (p : Z) (w : World) :
  select_dtype p w =
  match dtype_of p with
  | Some dt => (Ok dt, w)
  | None => (Raise (ValueError "Precision must be 16, 32 or 64."), w)
  end.
Proof.
  unfold select_dtype, dtype_of.
  destruct p as [|p|p]; try reflexivity.
  do 7 (try (destruct p as [p|p|]; try reflexivity)).
Qed.

Lemma dtype_of_bits (p : Z) (dt : dtype) :
  dtype_of p = Some dt ↔ dtype_bits dt = p.
Proof.
  split.
  - unfold dtype_of.
    destruct p as [|p|p]; try discriminate.
    do 7 (try (destruct p as [p|p|]; try discriminate)); by intros [= <-].
  - intros <-. by destruct dt.
Qed.

Lemma place_model_spec (a : Args) (net : Net L) (dt : dtype) (w : World) :
  match placed L a net dt with
  | Some m =>
      place_model L a net dt w
      = (Ok m, {| fs := fs w; trace := trace w ++ place_events L a dt |})
  | None => ∃ e, (place_model L a net dt w).1 = Raise e
  end.
Proof.
  unfold place_model, placed, place_events, compile_with_tensorrt, model_to, print,
    from_option, bind, emit, ret, raise.
  destruct (tensorrt a); cbn.
  - destruct (tensorrt_installed L); cbn; [|by eauto].
    destruct (randn_cuda L _ _) as [x|]; cbn; [|by eauto].
    destruct (jit_trace L net x) as [tr|]; cbn; [|by eauto].
    destruct (tensorrt_compile L tr _ _ dt); cbn; [|by eauto].
    by rewrite <- !app_assoc.
  - destruct (cuda_is_available L); cbn; [done|]. by rewrite <- !app_assoc.
Qed.

Lemma translate_file_spec (t : Tokenizer L) (m : Model L) (bos : Z)
    (total : nat) (dl : DataLoader L) (out : string) (w : World) :
  match
    fs1 ← result_to_option (FS.open_truncate out (fs w));
    content ← result_to_option (FS.read (dl_filename dl) fs1);
    decoded ← decode_all L t m bos (tokenized_batches dl content);
    Some (FS.append out (written decoded) fs1,
          [PbarOpen total; FileOpen out]
          ++ loop_events out (is_compiled m) bos (tokenized_batches dl content) decoded
          ++ [FileClose out; PbarClose])
  with
  | Some (fs', es) =>
      translate_file L t m bos total dl out w
      = (Ok tt, {| fs := fs'; trace := trace w ++ es |})
  | None => ∃ e, (translate_file L t m bos total dl out w).1 = Raise e
  end.
Proof.
  unfold translate_file, with_tqdm, with_open, iterate, finally, fs_update,
    fs_query, bind, emit, ret. cbn.
  destruct (FS.open_truncate out (fs w)) as [fs1|e]; cbn; [|by eauto].
  destruct (FS.read (dl_filename dl) fs1) as [content|e]; cbn; [|by eauto].
  match goal with |- context [for_each _ _ ?w1] =>
    pose proof (for_each_translate L t m bos out (tokenized_batches dl content) w1) as H
  end.
  destruct (decode_all L t m bos _) as [decoded|]; cbn.
  - rewrite H. cbn. rewrite <- !app_assoc. reflexivity.
  - destruct H as [e H1].
    destruct (for_each _ _ _) as [r w2]; cbn in *. subst. by eauto.
Qed.

Lemma ensure_output_dir_spec (out : string) (w : World) :
  match dir_step out (fs w) with
  | Ok fs0 =>
      ensure_output_dir out w
      = (Ok tt, {| fs := fs0; trace := trace w ++ dir_events out (fs w) |})
  | Raise e => (ensure_output_dir out w).1 = Raise e
  end.
Proof.
  unfold ensure_output_dir, dir_step, dir_events, os_path_exists, os_makedirs, fs_update,
    bind, emit, ret. cbn.
  destruct (FS.path_exists (fs w) (Path.dirname out)); cbn.
  - rewrite app_nil_r. by destruct w.
  - by destruct (FS.makedirs (Path.dirname out) (fs w)).
Qed.

Local Arguments translate_file : simpl never.
Local Arguments place_model : simpl never.
Local Arguments ensure_output_dir : simpl never.

(** The [with] statement raised. *)
Local Ltac stops_in_translate_file Ht :=
  let e := fresh "e" in
  destruct Ht as [e Ht]; destruct (translate_file _ _ _ _ _ _ _ _); cbn in Ht;
  subst; by eauto.

(** A run of [main] completes exactly when its closed form has a result,
    and then leaves that file system and has made those calls. *)
Lemma main_run (a : Args) (w : World) :
  match run L a (fs w) with
  | Some (fs', es) => main L a w = (Ok tt, {| fs := fs'; trace := trace w ++ es |})
  | None => ∃ e, (main L a w).1 = Raise e
  end.
Proof.
  unfold main, run.
  rewrite bind_unfold.
  pose proof (ensure_output_dir_spec (output_path a) w) as H0.
  destruct (dir_step (output_path a) (fs w)) as [fs0|e]; cbn in H0 |- *;
    [rewrite H0 | destruct (ensure_output_dir _ w); cbn in H0; subst; by eauto].
  unfold M2M100Tokenizer_from_pretrained, M2M100ForConditionalGeneration_from_pretrained,
    lang_code_to_id_getitem, set_src_lang, count_lines, get_dataloader, print,
    fs_query, from_option, emit, bind, ret, raise. cbn.
  destruct (tokenizer_from_pretrained L (model_name a)) as [t|]; cbn; [|by eauto].
  destruct (model_from_pretrained L (model_name a)) as [net|]; cbn; [|by eauto].
  destruct (lang_code_to_id L t (target_lang a)) as [bos|]; cbn; [|by eauto].
  destruct (FS.read (sentences_path a) fs0) as [content0|e]; cbn; [|by eauto].
  rewrite select_dtype_spec.
  destruct (dtype_of (precision a)) as [dt|]; cbn; [|by eauto].
  match goal with |- context [place_model L a net dt ?w1] =>
    pose proof (place_model_spec a net dt w1) as Hm
  end.
  destruct (placed L a net dt) as [model|]; cbn;
    [rewrite Hm | destruct Hm as [e Hm]; destruct (place_model _ _ _ _ _); cbn in Hm;
                  subst; by eauto].
  match goal with |- context [translate_file L ?t ?m ?b ?n ?dl ?o ?wm] =>
    pose proof (translate_file_spec t m b n dl o wm) as Ht
  end.
  cbn in Ht. fold (loader L a t) in Ht |- *.
  destruct (FS.open_truncate (output_path a) fs0) as [fs1|e]; cbn in Ht |- *;
    [|stops_in_translate_file Ht].
  destruct (FS.read (sentences_path a) fs1) as [content|e]; cbn in Ht |- *;
    [|stops_in_translate_file Ht].
  destruct (decode_all L _ model bos _) as [decoded|]; cbn in Ht |- *;
    [|stops_in_translate_file Ht].
  rewrite Ht. cbn. do 2 f_equal.
  rewrite <- !app_assoc. cbn [app]. rewrite <- ?app_assoc. reflexivity.
Qed.

End MainFacts.

(** ** The calls of a run *)

Lemma events_of_app {A} (c : M A) (w : World) (es : list event) :
  trace (c w).2 = trace w ++ es → events_of c w = es.
Proof. unfold events_of. intros ->. by rewrite drop_app_length. Qed.

Section Emits.
Context {A : Type} (P : event → Prop).

Lemma emits_ret (Q : A → Prop) (a : A) : Q a → emits P Q (ret a).
Proof. intros HQ w. exists []. cbn. by rewrite app_nil_r. Qed.

Lemma emits_raise (Q : A → Prop) (e : exn) : emits P Q (raise e).
Proof. intros w. exists []. cbn. by rewrite app_nil_r. Qed.

Lemma emits_from_option (Q : A → Prop) (e : exn) (o : option A) :
  (∀ a, o = Some a → Q a) → emits P Q (from_option e o).
Proof.
  intros HQ. destruct o as [a|]; [apply emits_ret; auto | apply emits_raise].
Qed.

Lemma emits_fs_query (Q : A → Prop) (f : FS.t → Result A) :
  (∀ a, Q a) → emits P Q (fs_query f).
Proof.
  intros HQ w. exists []. unfold fs_query.
  destruct (f (fs w)); cbn; by rewrite app_nil_r.
Qed.

Lemma emits_finally (Q : A → Prop) (body : M A) (on_exit : M unit) :
  emits P Q body → emits P (λ _, True) on_exit → emits P Q (finally body on_exit).
Proof.
  intros Hb He w. unfold finally.
  destruct (Hb w) as (es & Ht & HP & Hr).
  destruct (body w) as [r w1]. cbn in *.
  destruct (He w1) as (es' & Ht' & HP' & _).
  exists (es ++ es'). rewrite Ht', Ht, app_assoc.
  split; [done|]. split; [by apply Forall_app|done].
Qed.

End Emits.

Lemma emits_emit (P : event → Prop) (Q : unit → Prop) (e : event) :
  P e → Q tt → emits P Q (emit e).
Proof. intros HP HQ w. exists [e]. cbn. by repeat constructor. Qed.

Lemma emits_fs_update (P : event → Prop) (Q : unit → Prop) (f : FS.t → Result FS.t) :
  Q tt → emits P Q (fs_update f).
Proof.
  intros HQ w. exists []. unfold fs_update.
  destruct (f (fs w)); cbn; by rewrite app_nil_r.
Qed.

Lemma emits_bind {A B} (P : event → Prop) (Q : A → Prop) (R : B → Prop)
    (c : M A) (k : A → M B) :
  emits P Q c → (∀ a, Q a → emits P R (k a)) → emits P R (bind c k).
Proof.
  intros Hc Hk w. rewrite bind_unfold.
  destruct (Hc w) as (es & Ht & HP & Hr).
  destruct (c w) as [[a|e] w1]; cbn in *.
  - destruct (Hk a Hr w1) as (es' & Ht' & HP' & Hr').
    exists (es ++ es'). rewrite Ht', Ht, app_assoc.
    split; [done|]. split; [by apply Forall_app|done].
  - exists es. by repeat split.
Qed.

Lemma emits_for_each {A} (P : event → Prop) (body : A → M unit) (l : list A) :
  (∀ x, emits P (λ _, True) (body x)) → emits P (λ _, True) (for_each body l).
Proof.
  intros Hb. induction l as [|x l IH]; cbn [for_each].
  - by apply emits_ret.
  - eapply emits_bind; [apply Hb | intros _ _; apply IH].
Qed.

(** What [emits] says about the calls of one run. *)
Lemma emits_events {A} (P : event → Prop) (Q : A → Prop) (c : M A) (w : World) :
  emits P Q c → Forall P (events_of c w).
Proof.
  intros Hc. destruct (Hc w) as (es & Ht & HP & _).
  by rewrite (events_of_app c w es Ht).
Qed.

(** One call, then the rest. *)
Ltac emits_call :=
  eapply emits_bind with (Q := λ _, True); [by apply emits_emit | intros _ _].

(** One call into the library, then the rest with its result [x]. *)
Ltac emits_lib x :=
  eapply emits_bind with (Q := λ _, True); [by apply emits_from_option | intros x _].

Section Blocks.
Context (L : Lib) (P : event → Prop).

Lemma ensure_output_dir_emits (out : string) :
  P (MakeDirs (Path.dirname out)) → emits P (λ _, True) (ensure_output_dir out).
Proof.
  intros HP. unfold ensure_output_dir, os_path_exists.
  eapply emits_bind with (Q := λ _, True).
  - intros w. exists []. cbn. by rewrite app_nil_r.
  - intros there _. destruct (negb there); [|by apply emits_ret].
    unfold os_makedirs. emits_call. by apply emits_fs_update.
Qed.

Lemma tokenizer_from_pretrained_emits (name : string) :
  P (TokenizerFromPretrained name) →
  emits P (λ _, True) (M2M100Tokenizer_from_pretrained L name).
Proof.
  intros HP. unfold M2M100Tokenizer_from_pretrained.
  emits_call. emits_lib t. by apply emits_ret.
Qed.

Lemma model_from_pretrained_emits (name : string) :
  P (ModelFromPretrained name) →
  emits P (λ _, True) (M2M100ForConditionalGeneration_from_pretrained L name).
Proof.
  intros HP. unfold M2M100ForConditionalGeneration_from_pretrained.
  emits_call. by apply emits_from_option.
Qed.

Lemma count_lines_emits (path : string) :
  P (CountLines path) → emits P (λ _, True) (count_lines path).
Proof.
  intros HP. unfold count_lines. emits_call.
  eapply emits_bind with (Q := λ _, True); [by apply emits_fs_query|].
  intros c _. by apply emits_ret.
Qed.

Lemma get_dataloader_emits (filename : string) (t : Tokenizer L) (b m : Z) :
  P (GetDataloader filename b m) →
  emits P (λ _, True) (get_dataloader filename t b m).
Proof. intros HP. unfold get_dataloader. emits_call. by apply emits_ret. Qed.

(** The chain of tests records nothing and returns the dtype of the
    width asked for. *)
Lemma select_dtype_emits (p : Z) :
  emits P (λ dt, dtype_bits dt = p) (select_dtype p).
Proof.
  intros w. rewrite select_dtype_spec. exists [].
  destruct (dtype_of p) as [dt|] eqn:E; cbn; rewrite app_nil_r;
    repeat split; try done.
  by apply dtype_of_bits.
Qed.

(** The placement statement records the calls of one branch only, and
    returns a compiled module exactly when [tensorrt] is set. *)
Lemma place_model_emits (a : Args) (net : Net L) (dt : dtype) :
  (tensorrt a = true →
   P ImportTensorrt ∧ P (JitTrace (batch_size a) (max_length a))
   ∧ P (TensorrtCompile (batch_size a) (max_length a) dt)) →
  (tensorrt a = false →
   P (ModelTo (if cuda_is_available L then cuda else cpu) dt)
   ∧ ∀ text, P (Print text)) →
  emits P (λ m, is_compiled m = tensorrt a) (place_model L a net dt).
Proof.
  intros Htrt Hstd. unfold place_model. destruct (tensorrt a).
  - destruct (Htrt eq_refl) as (H1 & H2 & H3). unfold compile_with_tensorrt.
    emits_call.
    eapply emits_bind with (Q := λ _, True).
    { destruct (tensorrt_installed L); [by apply emits_ret | apply emits_raise]. }
    intros _ _. emits_lib x. emits_call. emits_lib tr. emits_call. emits_lib e.
    by apply emits_ret.
  - destruct (Hstd eq_refl) as (H1 & H2). unfold model_to, print.
    destruct (cuda_is_available L).
    + emits_call. by apply emits_ret.
    + eapply emits_bind with (Q := λ m, is_compiled m = false).
      * emits_call. by apply emits_ret.
      * intros m Hm. emits_call. by apply emits_ret.
Qed.

(** The [with] statement records the calls of the progress bar, of the
    output file and of the loop. *)
Lemma translate_file_emits (t : Tokenizer L) (m : Model L) (bos : Z)
    (total : nat) (dl : DataLoader L) (out : string) :
  P (PbarOpen total) → P PbarClose → P (FileOpen out) → P (FileClose out) →
  (∀ rows, P (Generate (is_compiled m) rows bos)) →
  (∀ data, P (FileWrite out data)) →
  (∀ n, P (PbarUpdate n)) →
  emits P (λ _, True) (translate_file L t m bos total dl out).
Proof.
  intros H1 H2 H3 H4 H5 H6 H7. unfold translate_file, with_tqdm, with_open.
  emits_call. apply emits_finally; [|by apply emits_emit].
  emits_call.
  eapply emits_bind with (Q := λ _, True); [by apply emits_fs_update|].
  intros _ _. apply emits_finally; [|by apply emits_emit].
  eapply emits_bind with (Q := λ _, True).
  { unfold iterate. eapply emits_bind with (Q := λ _, True); [by apply emits_fs_query|].
    intros c _. by apply emits_ret. }
  intros batches _. apply emits_for_each. intros b w.
  rewrite translate_batch_spec.
  destruct (generate_with L m b bos); eexists; cbn;
    (split; [reflexivity|]); (split; [|done]); by repeat constructor.
Qed.

End Blocks.

Section MainCalls.
Context (L : Lib).

(** Every call of a run of [main], completed or not, is one [main_event]
    allows. *)
Lemma main_emits (a : Args) : emits (main_event L a) (λ _, True) (main L a).
Proof.
  unfold main.
  eapply emits_bind with (Q := λ _, True); [by apply ensure_output_dir_emits|].
  intros _ _. unfold print. emits_call.
  eapply emits_bind with (Q := λ _, True); [by apply tokenizer_from_pretrained_emits|].
  intros tokenizer _. emits_call.
  eapply emits_bind with (Q := λ _, True); [by apply model_from_pretrained_emits|].
  intros net _. emits_call. unfold lang_code_to_id_getitem. emits_lib bos. emits_call.
  eapply emits_bind with (Q := λ _, True); [by apply count_lines_emits|].
  intros total _. emits_call.
  eapply emits_bind with (Q := λ _, True); [by apply get_dataloader_emits|].
  intros dl _.
  eapply emits_bind; [apply select_dtype_emits|]. intros dt Hdt.
  eapply emits_bind.
  { apply place_model_emits; intros Htrt; cbn; by rewrite Htrt. }
  intros model Hmodel. cbn beta in Hmodel.
  eapply emits_bind with (Q := λ _, True); [|intros _ _; by apply emits_emit].
  apply translate_file_emits; cbn; done.
Qed.

(** A completed run, read off its closed form. *)
Lemma main_ok_run (a : Args) (w w' : World) :
  main L a w = (Ok tt, w') →
  ∃ fs' es, run L a (fs w) = Some (fs', es) ∧ fs w' = fs' ∧ trace w' = trace w ++ es
            ∧ events_of (main L a) w = es.
Proof.
  intros Hmain. pose proof (main_run L a w) as H.
  destruct (run L a (fs w)) as [[fs' es]|].
  - rewrite Hmain in H. injection H as ->. exists fs', es.
    repeat split; try done. apply events_of_app. by rewrite Hmain.
  - destruct H as [e H]. by rewrite Hmain in H.
Qed.

End MainCalls.

(** ** Paths *)

Module PathFacts.
Import Path.

Lemma cut_last_sep_no_sep (p : string) :
  has_sep p = false → cut_last_sep p = ("", p).
Proof.
  destruct p as [|c r]; [done|]. cbn [has_sep cut_last_sep].
  intros H. apply orb_false_iff in H as [Hc Hr]. by rewrite Hr, Hc.
Qed.

Lemma cut_last_sep_head (p : string) :
  has_sep p = true → has_sep (cut_last_sep p).1 = true.
Proof.
  induction p as [|c r IH]; [done|]. cbn [has_sep cut_last_sep].
  destruct (has_sep r) eqn:Hr.
  - intros _. specialize (IH eq_refl). destruct (cut_last_sep r) as [h t].
    cbn in *. by rewrite IH, orb_true_r.
  - rewrite orb_false_r. intros Hc. rewrite Hc. cbn. by rewrite Hc.
Qed.

Lemma rstrip_sep_empty (s : string) : rstrip_sep s = "" → all_sep s = true.
Proof.
  induction s as [|c r IH]; [done|]. cbn [rstrip_sep all_sep].
  destruct (rstrip_sep r) as [|x r'] eqn:E; [|done].
  destruct (Ascii.eqb c sep); [|done]. intros _. by rewrite IH.
Qed.

(** A path has an empty [dirname] exactly when it holds no separator: it
    is a bare file name. *)
Lemma dirname_empty (p : string) : dirname p = "" ↔ has_sep p = false.
Proof.
  unfold dirname, split. split.
  - intros H. destruct (has_sep p) eqn:Hp; [|done].
    apply cut_last_sep_head in Hp. destruct (cut_last_sep p) as [h t]. cbn in *.
    destruct h as [|c h]; [done|].
    cbn [Text.is_empty negb andb] in H.
    destruct (all_sep (String c h)) eqn:Ha; cbn [negb fst] in H; [done|].
    apply rstrip_sep_empty in H. congruence.
  - intros Hp. by rewrite cut_last_sep_no_sep.
Qed.

End PathFacts.

(** ** The command line *)

Section CommandLine.
Context (L : Lib).



(** Only the help option, given alone, prints the help. *)
Lemma parse_arg_help (ns : Namespace) (arg : cli_arg) :
  parse_arg L ns arg = inl Help → is_flag opt_help arg = true.
Proof.
  unfold parse_arg, is_flag.
  destruct (resolve (arg_name arg)) as [o| |] eqn:Hr; [|done..].
  destruct arg as [name v|name]; cbn [arg_name] in Hr.
  - unfold store. destruct o; try done.
    + by destruct (py_int L v).
    + destruct (py_int L v); [|done]. by case_bool_decide.
  - intros H. rewrite Hr. by destruct o.
Qed.



End CommandLine.

(** ** [main] called with a precision the parser would reject *)

(** Called directly, [main] reaches its own check of the precision only
    after the tokenizer and the model were loaded and the loader was
    built: the [ValueError] comes last. *)
Lemma main_checks_precision_after_loading (L : Lib) (a : Args) (w : World)
    (fs0 : FS.t) (t : Tok L) (net : Net L) (bos : Z) (content : string) :
  dtype_of (precision a) = None →
  dir_step (output_path a) (fs w) = Ok fs0 →
  tokenizer_from_pretrained L (model_name a) = Some t →
  model_from_pretrained L (model_name a) = Some net →
  lang_code_to_id L t (target_lang a) = Some bos →
  FS.read (sentences_path a) fs0 = Ok content →
  main L a w =
  (Raise (ValueError "Precision must be 16, 32 or 64."),
   {| fs := fs0;
      trace := trace w ++ dir_events (output_path a) (fs w)
               ++ [Print "Loading tokenizer..."; TokenizerFromPretrained (model_name a);
                   Print "Loading model..."; ModelFromPretrained (model_name a);
                   Print ("Model loaded." +:+ Text.NL); ModelEval;
                   CountLines (sentences_path a);
                   Print ("We will translate " +:+ pretty (length (Text.lines content))
                          +:+ " lines.");
                   GetDataloader (sentences_path a) (batch_size a) 128] |}).
Proof.
  intros Hp Hdir Ht Hnet Hbos Hread.
  unfold main. rewrite bind_unfold.
  pose proof (ensure_output_dir_spec (output_path a) w) as H0.
  rewrite Hdir in H0. rewrite H0.
  unfold M2M100Tokenizer_from_pretrained, M2M100ForConditionalGeneration_from_pretrained,
    lang_code_to_id_getitem, set_src_lang, count_lines, get_dataloader, print,
    fs_query, from_option, emit, bind, ret, raise. cbn.
  rewrite Ht. cbn. rewrite Hnet. cbn. rewrite Hbos. cbn. rewrite Hread. cbn.
  rewrite select_dtype_spec, Hp. do 2 f_equal.
  rewrite <- !app_assoc. reflexivity.
Qed.

Example main_precision_8_loads_first :
  let '(r, w) := main (Toy.lib false) Toy.args_precision_8 Toy.world in
  r = Raise (ValueError "Precision must be 16, 32 or 64.")
  ∧ filter (λ e, Is_true (is_load e)) (trace w)
    = [TokenizerFromPretrained "facebook/m2m100_1.2B";
       ModelFromPretrained "facebook/m2m100_1.2B"].
Proof. vm_compute. done. Qed.

(** ** Reading a trace *)

Section TraceFacts.
Context (L : Lib).

Lemma dataloader_calls_app (es es' : list event) :
  dataloader_calls (es ++ es') = dataloader_calls es ++ dataloader_calls es'.
Proof. apply omap_app. Qed.

Lemma placements_app (es es' : list event) :
  placements (es ++ es') = placements es ++ placements es'.
Proof. apply omap_app. Qed.

Lemma dataloader_calls_loop (out : string) (c : bool) (bos : Z)
    (batches : list Batch) (decoded : list (list string)) :
  dataloader_calls (loop_events out c bos batches decoded) = [].
Proof.
  revert decoded. induction batches as [|b batches IH]; intros [|d decoded]; try done.
  cbn. apply IH.
Qed.

Lemma placements_loop (out : string) (c : bool) (bos : Z)
    (batches : list Batch) (decoded : list (list string)) :
  placements (loop_events out c bos batches decoded) = [].
Proof.
  revert decoded. induction batches as [|b batches IH]; intros [|d decoded]; try done.
  cbn. apply IH.
Qed.

Lemma dataloader_calls_dir (out : string) (fs : FS.t) :
  dataloader_calls (dir_events out fs) = [].
Proof. unfold dir_events. by destruct (FS.path_exists _ _). Qed.

Lemma placements_dir (out : string) (fs : FS.t) :
  placements (dir_events out fs) = [].
Proof. unfold dir_events. by destruct (FS.path_exists _ _). Qed.

Lemma dataloader_calls_place (a : Args) (dt : dtype) :
  dataloader_calls (place_events L a dt) = [].
Proof. unfold place_events. by destruct (tensorrt a), (cuda_is_available L). Qed.

Lemma placements_place (a : Args) (dt : dtype) :
  placements (place_events L a dt)
  = if tensorrt a then [] else [(if cuda_is_available L then cuda else cpu, dt)].
Proof. unfold place_events. by destruct (tensorrt a), (cuda_is_available L). Qed.

(** The facts a completed run fixes, from its closed form. *)
Lemma run_inv (a : Args) (fs fs' : FS.t) (es : list event) :
  run L a fs = Some (fs', es) →
  ∃ fs0 t net bos content0 dt model fs1 content decoded,
    dir_step (output_path a) fs = Ok fs0
    ∧ tokenizer_from_pretrained L (model_name a) = Some t
    ∧ model_from_pretrained L (model_name a) = Some net
    ∧ lang_code_to_id L t (target_lang a) = Some bos
    ∧ FS.read (sentences_path a) fs0 = Ok content0
    ∧ dtype_of (precision a) = Some dt
    ∧ placed L a net dt = Some model
    ∧ FS.open_truncate (output_path a) fs0 = Ok fs1
    ∧ FS.read (sentences_path a) fs1 = Ok content
    ∧ decode_all L (mkTokenizer t (Some (source_lang a))) model bos
        (tokenized_batches (loader L a t) content) = Some decoded
    ∧ fs' = FS.append (output_path a) (written decoded) fs1
    ∧ es = dir_events (output_path a) fs
           ++ [Print "Loading tokenizer..."; TokenizerFromPretrained (model_name a);
               Print "Loading model..."; ModelFromPretrained (model_name a);
               Print ("Model loaded." +:+ Text.NL); ModelEval;
               CountLines (sentences_path a);
               Print ("We will translate " +:+ pretty (length (Text.lines content0))
                      +:+ " lines.");
               GetDataloader (sentences_path a) (batch_size a) 128]
           ++ place_events L a dt
           ++ [PbarOpen (length (Text.lines content0)); FileOpen (output_path a)]
           ++ loop_events (output_path a) (is_compiled model) bos
                (tokenized_batches (loader L a t) content) decoded
           ++ [FileClose (output_path a); PbarClose;
               Print ("Translation done." +:+ Text.NL)].
Proof.
  unfold run. intros H.
  destruct (dir_step (output_path a) fs) as [fs0|] eqn:H1; [|done]. cbn in H.
  destruct (tokenizer_from_pretrained L (model_name a)) as [t|] eqn:H2; [|done]. cbn in H.
  destruct (model_from_pretrained L (model_name a)) as [net|] eqn:H3; [|done]. cbn in H.
  destruct (lang_code_to_id L t (target_lang a)) as [bos|] eqn:H4; [|done]. cbn in H.
  destruct (FS.read (sentences_path a) fs0) as [content0|] eqn:H5; [|done]. cbn in H.
  destruct (dtype_of (precision a)) as [dt|] eqn:H6; [|done]. cbn in H.
  destruct (placed L a net dt) as [model|] eqn:H7; [|done]. cbn in H.
  destruct (FS.open_truncate (output_path a) fs0) as [fs1|] eqn:H8; [|done]. cbn in H.
  destruct (FS.read (sentences_path a) fs1) as [content|] eqn:H9; [|done]. cbn in H.
  destruct (decode_all L _ model bos _) as [decoded|] eqn:Hdec; [|done]. cbn in H.
  injection H as <- <-.
  exists fs0, t, net, bos, content0, dt, model, fs1, content, decoded.
  repeat split; done.
Qed.

End TraceFacts.

(** ** The file system along a run *)

Section FsAlongRun.

Lemma is_dir_dirs (fs fs' : FS.t) (k : list string) :
  FS.dirs fs' = FS.dirs fs → FS.is_dir fs' k = FS.is_dir fs k.
Proof. unfold FS.is_dir. by intros ->. Qed.

Lemma makedirs_nonempty (p : string) (fs fs' : FS.t) :
  FS.makedirs p fs = Ok fs' → Text.is_empty p = false.
Proof. unfold FS.makedirs. by destruct (Text.is_empty p). Qed.

(** After the first statement of [main] the directory of the output file
    is there, and no file was touched. *)
Lemma dir_step_inv (out : string) (fs fs0 : FS.t) :
  dir_step out fs = Ok fs0 →
  FS.files fs0 = FS.files fs
  ∧ FS.dirs fs ⊆ FS.dirs fs0
  ∧ FS.path_exists fs0 (Path.dirname out) = true.
Proof.
  unfold dir_step. destruct (FS.path_exists fs (Path.dirname out)) eqn:E.
  - intros [= <-]. done.
  - intros H. pose proof (makedirs_nonempty _ _ _ H) as Hne.
    apply FSFacts.makedirs_inv in H as (Hf & Hd & Hdir).
    repeat split; try done. unfold FS.path_exists. by rewrite Hne, Hdir.
Qed.

Lemma dir_step_created (out : string) (fs fs0 : FS.t) :
  FS.path_exists fs (Path.dirname out) = false →
  dir_step out fs = Ok fs0 →
  FS.is_dir fs0 (Path.key (Path.dirname out)) = true.
Proof.
  unfold dir_step. intros ->. intros H.
  by apply FSFacts.makedirs_inv in H as (_ & _ & Hdir).
Qed.

End FsAlongRun.

Section RunIntro.
Context (L : Lib).

Lemma lines_nil (s : string) : Text.lines s = [] → s = "".
Proof.
  destruct s as [|c r]; [done|]. cbn [Text.lines].
  destruct (Ascii.eqb c Text.nl); [done|]. by destruct (Text.lines r).
Qed.

Lemma read_files (p : string) (fs fs' : FS.t) (c : string) :
  FS.files fs' = FS.files fs → FS.read p fs = Ok c → FS.read p fs' = Ok c.
Proof.
  unfold FS.read. intros ->. destruct (Text.is_empty p); [done|].
  destruct (FS.files fs !! Path.key p); [done|].
  by destruct (FS.is_dir fs _).
Qed.

(** Opening the output file leaves every other file as it was, and the
    output file empty. *)
Lemma read_after_open (inp out c : string) (fs0 fs1 : FS.t) :
  FS.open_truncate out fs0 = Ok fs1 →
  FS.read inp fs0 = Ok c →
  FS.read inp fs1 = Ok (if decide (Path.key out = Path.key inp) then "" else c).
Proof.
  intros Hopen. apply FSFacts.open_truncate_inv in Hopen as [_ Hf].
  unfold FS.read. rewrite Hf. destruct (Text.is_empty inp); [done|].
  rewrite lookup_insert. case_decide; [done|].
  destruct (FS.files fs0 !! Path.key inp); [done|].
  by destruct (FS.is_dir fs0 _).
Qed.

Lemma content_after_open (out : string) (fs0 fs1 : FS.t) :
  FS.open_truncate out fs0 = Ok fs1 → FS.content fs1 out = Some "".
Proof.
  intros Hopen. apply FSFacts.open_truncate_inv in Hopen as [_ Hf].
  unfold FS.content. rewrite Hf. apply lookup_insert_eq.
Qed.

(** The closed form has a result as soon as every step has one. *)
Lemma run_intro (a : Args) (fs fs0 fs1 : FS.t) (t : Tok L) (net : Net L) (bos : Z)
    (content0 content : string) (dt : dtype) (model : Model L)
    (decoded : list (list string)) :
  dir_step (output_path a) fs = Ok fs0 →
  tokenizer_from_pretrained L (model_name a) = Some t →
  model_from_pretrained L (model_name a) = Some net →
  lang_code_to_id L t (target_lang a) = Some bos →
  FS.read (sentences_path a) fs0 = Ok content0 →
  dtype_of (precision a) = Some dt →
  placed L a net dt = Some model →
  FS.open_truncate (output_path a) fs0 = Ok fs1 →
  FS.read (sentences_path a) fs1 = Ok content →
  decode_all L (mkTokenizer t (Some (source_lang a))) model bos
    (tokenized_batches (loader L a t) content) = Some decoded →
  ∃ es, run L a fs = Some (FS.append (output_path a) (written decoded) fs1, es).
Proof.
  intros H1 H2 H3 H4 H5 H6 H7 H8 H9 H10. unfold run.
  rewrite H1. cbn. rewrite H2. cbn. rewrite H3. cbn. rewrite H4. cbn.
  rewrite H5. cbn. rewrite H6. cbn. rewrite H7. cbn. rewrite H8. cbn.
  rewrite H9. cbn. rewrite H10. cbn. by eexists.
Qed.

Lemma main_of_run (a : Args) (w : World) (fs' : FS.t) (es : list event) :
  run L a (fs w) = Some (fs', es) →
  main L a w = (Ok tt, {| fs := fs'; trace := trace w ++ es |}).
Proof. intros H. pose proof (main_run L a w) as Hm. by rewrite H in Hm. Qed.

Lemma script_of_main (argv : list cli_arg) (a : Args) (w w' : World) :
  parse_args L argv = inr a → main L a w = (Ok tt, w') → script L argv w = (0, w').
Proof. unfold script. by intros -> ->. Qed.

End RunIntro.

(** ** A second run *)

Section Rerun.
Context (L : Lib).

Lemma is_file_append (p d : string) (fs : FS.t) (k : list string) :
  FS.is_file (FS.append p d fs) k = FS.is_file fs k.
Proof.
  unfold FS.is_file, FS.append. cbn [FS.files].
  apply bool_decide_ext. rewrite lookup_alter.
  case_decide as E; [|done]. subst. by rewrite fmap_is_Some.
Qed.

Lemma path_exists_append (p d q : string) (fs : FS.t) :
  FS.path_exists (FS.append p d fs) q = FS.path_exists fs q.
Proof. unfold FS.path_exists. by rewrite FSFacts.is_dir_append, is_file_append. Qed.

Lemma path_exists_open (out q : string) (fs0 fs1 : FS.t) :
  FS.open_truncate out fs0 = Ok fs1 →
  FS.path_exists fs0 q = true → FS.path_exists fs1 q = true.
Proof.
  intros Hopen. apply FSFacts.open_truncate_inv in Hopen as [Hd Hf].
  unfold FS.path_exists. rewrite (is_dir_dirs fs0 fs1) by done.
  intros H. apply andb_true_iff in H as [-> H]. cbn.
  apply orb_true_iff in H as [->|H]; [done|].
  apply orb_true_iff. right. unfold FS.is_file in *. rewrite Hf.
  apply bool_decide_eq_true. apply bool_decide_eq_true in H.
  rewrite lookup_insert. by case_decide.
Qed.

(** Opening the output file again undoes what the first run wrote. *)
Lemma open_truncate_again (out text : string) (fs0 fs1 : FS.t) :
  FS.open_truncate out fs0 = Ok fs1 →
  FS.open_truncate out (FS.append out text fs1) = Ok fs1.
Proof.
  unfold FS.open_truncate. destruct (Text.is_empty out); [done|].
  destruct (FS.is_dir fs0 (Path.key out) || FS.ends_with_sep out) eqn:E1; [done|].
  destruct (FS.is_dir fs0 (FS.parent (Path.key out))) eqn:E2;
    [|by destruct (FS.is_file fs0 _)].
  intros [= <-]. rewrite !FSFacts.is_dir_append.
  rewrite !(is_dir_dirs fs0 {| FS.dirs := FS.dirs fs0; FS.files := _ |}) by done.
  rewrite E1, E2. unfold FS.append. cbn [FS.dirs FS.files].
  by rewrite alter_insert_eq, insert_insert_eq.
Qed.

Lemma tokenized_batches_empty (dl : DataLoader L) : tokenized_batches dl "" = [].
Proof. done. Qed.

(** What the second run reads where the first run read [content]. *)
Lemma read_after_run (inp out content : string) (fs0 fs1 : FS.t)
    (decoded : list (list string)) (t : Tokenizer L) (m : Model L) (bos : Z)
    (dl : DataLoader L) :
  FS.open_truncate out fs0 = Ok fs1 →
  FS.read inp fs1 = Ok content →
  decode_all L t m bos (tokenized_batches dl content) = Some decoded →
  FS.read inp (FS.append out (written decoded) fs1) = Ok content.
Proof.
  intros Hopen Hread Hdec.
  pose proof (content_after_open _ _ _ Hopen) as Hout.
  unfold FS.content in Hout.
  unfold FS.read, FS.append in *. cbn [FS.files].
  destruct (Text.is_empty inp); [done|].
  rewrite lookup_alter. case_decide as E.
  - rewrite <- E in Hread. rewrite Hout in Hread |- *. injection Hread as <-.
    rewrite tokenized_batches_empty in Hdec. injection Hdec as <-. done.
  - destruct (FS.files fs1 !! Path.key inp); [done|].
    rewrite (is_dir_dirs fs1 {| FS.dirs := FS.dirs fs1; FS.files := _ |}) by done.
    done.
Qed.

End Rerun.

(** ** Trailing newlines *)

Module TrailingFacts.
Import Text.






End TrailingFacts.

(** ** The output of a completed run *)

Section Output.
Context (L : Lib).











End Output.

(** ** The small instance *)

Module ToyFacts.




End ToyFacts.

(** ** Runs that reach the placement of the model *)

Section Placement.
Context (L : Lib).

Local Arguments translate_file : simpl never.
Local Arguments place_model : simpl never.
Local Arguments ensure_output_dir : simpl never.

Lemma ensure_output_dir_trace (out : string) (w : World) :
  trace (ensure_output_dir out w).2 = trace w ++ dir_events out (fs w).
Proof.
  unfold ensure_output_dir, dir_events, os_path_exists, os_makedirs, fs_update,
    bind, emit, ret. cbn.
  destruct (FS.path_exists (fs w) (Path.dirname out)); cbn.
  - by rewrite app_nil_r.
  - by destruct (FS.makedirs (Path.dirname out) (fs w)).
Qed.

(** Once entered, the statement records the call that opens its branch,
    whether it completes or not. *)
Lemma place_model_first (a : Args) (net : Net L) (dt : dtype) (w : World) :
  ∃ es, trace (place_model L a net dt w).2 = trace w ++ placement_call L a dt :: es.
Proof.
  unfold place_model, placement_call, compile_with_tensorrt, model_to, print,
    from_option, bind, emit, ret, raise.
  destruct (tensorrt a); cbn.
  - destruct (tensorrt_installed L); cbn; [|by eexists].
    destruct (randn_cuda L _ _) as [x|]; cbn; [|by eexists].
    destruct (jit_trace L net x) as [tr|]; cbn;
      [|eexists; by rewrite <- !app_assoc].
    destruct (tensorrt_compile L tr _ _ dt); cbn; eexists; by rewrite <- !app_assoc.
  - destruct (cuda_is_available L); cbn; [by eexists|].
    eexists. by rewrite <- !app_assoc.
Qed.

Lemma translate_file_extends (t : Tokenizer L) (m : Model L) (bos : Z)
    (total : nat) (dl : DataLoader L) (out : string) (w : World) :
  ∃ es, trace (translate_file L t m bos total dl out w).2 = trace w ++ es.
Proof.
  destruct (translate_file_emits L (λ _, True) t m bos total dl out) with w
    as (es & Ht & _); try done.
  by exists es.
Qed.

Lemma dataloader_calls_elem (f : string) (b m : Z) (es : list event) :
  GetDataloader f b m ∈ es → (f, b, m) ∈ dataloader_calls es.
Proof.
  intros H. unfold dataloader_calls. apply list_elem_of_omap.
  exists (GetDataloader f b m). done.
Qed.

(** A run that stops here has built no loader. *)
Local Ltac stops_before_loader :=
  eexists; split; [by rewrite <- !app_assoc|];
  left; by rewrite !dataloader_calls_app, dataloader_calls_dir.

(** A run either stops before it builds the loader, or stops at the check
    of the precision, or records the call that opens a branch of the
    placement. *)
Lemma main_cases (a : Args) (w : World) :
  ∃ es, trace (main L a w).2 = trace w ++ es
        ∧ (dataloader_calls es = []
           ∨ dtype_of (precision a) = None
           ∨ ∃ dt, dtype_of (precision a) = Some dt ∧ placement_call L a dt ∈ es).
Proof.
  unfold main. rewrite bind_unfold.
  pose proof (ensure_output_dir_trace (output_path a) w) as H0.
  destruct (ensure_output_dir (output_path a) w) as [[[]|e] w0]; cbn in H0;
    [|exists (dir_events (output_path a) (fs w)); split; [done|];
      left; apply dataloader_calls_dir].
  unfold M2M100Tokenizer_from_pretrained, M2M100ForConditionalGeneration_from_pretrained,
    lang_code_to_id_getitem, set_src_lang, count_lines, get_dataloader, print,
    fs_query, from_option, emit, bind, ret, raise. cbn. rewrite H0.
  destruct (tokenizer_from_pretrained L (model_name a)) as [t|]; cbn;
    [|stops_before_loader].
  destruct (model_from_pretrained L (model_name a)) as [net|]; cbn;
    [|stops_before_loader].
  destruct (lang_code_to_id L t (target_lang a)) as [bos|]; cbn;
    [|stops_before_loader].
  destruct (FS.read (sentences_path a) (fs w0)) as [content0|e]; cbn;
    [|stops_before_loader].
  rewrite select_dtype_spec.
  destruct (dtype_of (precision a)) as [dt|] eqn:Hdt; cbn;
    [|eexists; split; [by rewrite <- !app_assoc|]; right; by left].
  match goal with |- context [place_model L a net dt ?w1] =>
    destruct (place_model_first a net dt w1) as [esp Hp];
    destruct (place_model L a net dt w1) as [[model|e] wm]
  end; cbn in Hp |- *.
  - match goal with |- context [translate_file L ?t ?m ?b ?n ?dl ?o wm] =>
      destruct (translate_file_extends t m b n dl o wm) as [est Ht];
      destruct (translate_file L t m b n dl o wm) as [[[]|e] wt]
    end; cbn in Ht |- *; rewrite Ht, Hp.
    + eexists. split; [by rewrite <- !app_assoc|].
      right; right. exists dt. split; [done|]. set_solver.
    + eexists. split; [by rewrite <- !app_assoc|].
      right; right. exists dt. split; [done|]. set_solver.
  - rewrite Hp. eexists. split; [by rewrite <- !app_assoc|].
    right; right. exists dt. split; [done|]. set_solver.
Qed.

(** A run that built the loader with a valid precision entered exactly
    the branch its [tensorrt] flag selects. *)
Lemma main_reaches_placement (a : Args) (w : World) (dt : dtype)
    (f : string) (b m : Z) :
  GetDataloader f b m ∈ events_of (main L a) w →
  dtype_bits dt = precision a →
  placement_call L a dt ∈ events_of (main L a) w.
Proof.
  intros Hin Hdt. apply dtype_of_bits in Hdt.
  destruct (main_cases a w) as (es & Ht & Hcases).
  rewrite (events_of_app _ _ _ Ht) in Hin |- *.
  destruct Hcases as [Hnone|[Hbad|(dt' & Hdt' & Hp)]].
  - apply dataloader_calls_elem in Hin. rewrite Hnone in Hin.
    by apply elem_of_nil in Hin.
  - congruence.
  - congruence.
Qed.

Lemma tensorrt_calls_app (es es' : list event) :
  tensorrt_calls (es ++ es') = tensorrt_calls es ++ tensorrt_calls es'.
Proof. apply omap_app. Qed.

Lemma tensorrt_calls_loop (out : string) (c : bool) (bos : Z)
    (batches : list Batch) (decoded : list (list string)) :
  tensorrt_calls (loop_events out c bos batches decoded) = [].
Proof.
  revert decoded. induction batches as [|b batches IH]; intros [|d decoded]; try done.
  cbn. apply IH.
Qed.

Lemma tensorrt_calls_dir (out : string) (fs : FS.t) :
  tensorrt_calls (dir_events out fs) = [].
Proof. unfold dir_events. by destruct (FS.path_exists _ _). Qed.

Lemma placements_elem (dev : device) (dt : dtype) (es : list event) :
  (dev, dt) ∈ placements es ↔ ModelTo dev dt ∈ es.
Proof.
  unfold placements. rewrite list_elem_of_omap. split.
  - intros (e & He & Hm). destruct e; try done. by injection Hm as -> ->.
  - intros H. by exists (ModelTo dev dt).
Qed.

Lemma generate_modes_elem (c : bool) (es : list event) :
  c ∈ generate_modes es → ∃ rows bos, Generate c rows bos ∈ es.
Proof.
  unfold generate_modes. rewrite list_elem_of_omap.
  intros (e & He & Hm). destruct e; try done. injection Hm as ->. by eauto.
Qed.

Lemma dtype_bits_inj (dt dt' : dtype) : dtype_bits dt = dtype_bits dt' → dt = dt'.
Proof. by destruct dt, dt'. Qed.

End Placement.
(** * The properties of the specification *)







(** C3. Whatever value of [max_length] is passed to [main], every
    construction of the dataloader a run records has the maximum length
    128, on the sentences file and with the batch size of the call; a
    completed run records exactly one such construction; and without
    TensorRT the whole run, result and world, is the same for every
    [max_length]. *)
Theorem C3_max_length_ignored_by_dataloader (L : Lib) (a : Args) (m : Z) (w : World) :
  (∀ f b ml, GetDataloader f b ml ∈ events_of (main L (set_max_length a m)) w →
             ml = 128 ∧ f = sentences_path a ∧ b = batch_size a)
  ∧ (∀ w', main L (set_max_length a m) w = (Ok tt, w') →
           dataloader_calls (events_of (main L (set_max_length a m)) w)
           = [(sentences_path a, batch_size a, 128)])
  ∧ (tensorrt a = false → main L (set_max_length a m) w = main L a w).
Proof.
  split; [|split].
  - intros f b ml Hin.
    pose proof (emits_events _ _ _ w (main_emits L (set_max_length a m))) as Hall.
    rewrite Forall_forall in Hall. specialize (Hall _ Hin). cbn in Hall.
    destruct Hall as (-> & -> & ->). done.
  - intros w' Hmain.
    destruct (main_ok_run L _ _ _ Hmain) as (fs' & es & Hrun & _ & _ & ->).
    destruct (run_inv L _ _ _ _ Hrun)
      as (fs0 & t & net & bos & c0 & dt & model & fs1 & c & dec & _ & _ & _ & _ & _ & _
          & _ & _ & _ & _ & _ & ->).
    rewrite !dataloader_calls_app, dataloader_calls_dir, dataloader_calls_place,
      dataloader_calls_loop. reflexivity.
  - intros Htrt. unfold main, place_model. cbn. rewrite Htrt. reflexivity.
Qed.

Lemma C3_witness :
  main (Toy.lib false) (set_max_length Toy.args 7) Toy.world
  = main (Toy.lib false) Toy.args Toy.world
  ∧ dataloader_calls (events_of (main (Toy.lib false) (set_max_length Toy.args 7)) Toy.world)
    = [("in.txt", 2, 128)].
Proof.
  destruct (C3_max_length_ignored_by_dataloader (Toy.lib false) Toy.args 7 Toy.world)
    as (_ & Hcalls & Hsame).
  split.
  - apply Hsame. reflexivity.
  - apply (Hcalls (main (Toy.lib false) (set_max_length Toy.args 7) Toy.world).2).
    vm_compute. reflexivity.
Defined.

(** C4. On an input file without any line, a run whose other steps go
    through (the output directory is there or can be made, tokenizer and
    model load, the target language is known, the precision is valid, the
    model can be placed or compiled, the output file can be opened)
    completes, leaves an empty output file, and the script exits with
    status zero. *)
Theorem C4_empty_input_empty_output (L : Lib) (a : Args) (w : World)
    (fs0 fs1 : FS.t) (t : Tok L) (net : Net L) (bos : Z) (dt : dtype)
    (model : Model L) (content : string) :
  dir_step (output_path a) (fs w) = Ok fs0 →
  tokenizer_from_pretrained L (model_name a) = Some t →
  model_from_pretrained L (model_name a) = Some net →
  lang_code_to_id L t (target_lang a) = Some bos →
  dtype_bits dt = precision a →
  placed L a net dt = Some model →
  FS.open_truncate (output_path a) fs0 = Ok fs1 →
  FS.read (sentences_path a) (fs w) = Ok content →
  Text.lines content = [] →
  ∃ w', main L a w = (Ok tt, w')
        ∧ FS.content (fs w') (output_path a) = Some ""
        ∧ ∀ argv, parse_args L argv = inr a → (script L argv w).1 = 0.
Proof.
  intros Hdir Ht Hnet Hbos Hdt Hplaced Hopen Hread Hlines.
  apply lines_nil in Hlines as ->.
  apply dtype_of_bits in Hdt.
  destruct (dir_step_inv _ _ _ Hdir) as (Hfiles & _ & _).
  pose proof (read_files _ _ fs0 _ Hfiles Hread) as Hread0.
  pose proof (read_after_open _ _ _ _ _ Hopen Hread0) as Hread1.
  assert (Hread1' : FS.read (sentences_path a) fs1 = Ok "")
    by (rewrite Hread1; by case_decide).
  destruct (run_intro L a (fs w) fs0 fs1 t net bos "" "" dt model [])
    as [es Hrun]; try done.
  apply main_of_run in Hrun. cbn [written] in Hrun.
  rewrite FSFacts.append_empty in Hrun.
  eexists. split; [exact Hrun|]. split.
  - cbn [fs]. by apply content_after_open with fs0.
  - intros argv Hargv. by rewrite (script_of_main L argv a w _ Hargv Hrun).
Qed.

Lemma C4_witness :
  ∃ w', main (Toy.lib false) Toy.args Toy.empty_world = (Ok tt, w')
        ∧ FS.content (fs w') "out/res.txt" = Some ""
        ∧ ∀ argv, parse_args (Toy.lib false) argv = inr Toy.args →
                  (script (Toy.lib false) argv Toy.empty_world).1 = 0.
Proof.
  apply (C4_empty_input_empty_output (Toy.lib false) Toy.args Toy.empty_world
           (FS.mk {[ ["out"] ]} {[ ["in.txt"] := "" ]})
           (FS.mk {[ ["out"] ]} (<[ ["out"; "res.txt"] := "" ]> {[ ["in.txt"] := "" ]}))
           tt tt 128022 float32 (Eager (L := Toy.lib false) tt cpu float32) "").
  - vm_compute. reflexivity.
  - reflexivity.
  - reflexivity.
  - reflexivity.
  - reflexivity.
  - reflexivity.
  - vm_compute. reflexivity.
  - vm_compute. reflexivity.
  - reflexivity.
Defined.

(** C5. When [os.path.exists] does not find the directory of the output
    path before a run and the run completes, that directory exists after
    the run. *)
Theorem C5_output_directory_created (L : Lib) (a : Args) (w w' : World) :
  FS.path_exists (fs w) (Path.dirname (output_path a)) = false →
  main L a w = (Ok tt, w') →
  FS.is_dir (fs w') (Path.key (Path.dirname (output_path a))) = true
  ∧ FS.path_exists (fs w') (Path.dirname (output_path a)) = true.
Proof.
  intros Hno Hmain.
  destruct (main_ok_run L _ _ _ Hmain) as (fs' & es & Hrun & Hfs & _ & _).
  destruct (run_inv L _ _ _ _ Hrun)
    as (fs0 & t & net & bos & c0 & dt & model & fs1 & c & dec & Hdir & _ & _ & _ & _ & _
        & _ & Hopen & _ & _ & -> & _).
  pose proof (dir_step_created _ _ _ Hno Hdir) as Hd.
  apply FSFacts.open_truncate_inv in Hopen as [Hdirs _].
  assert (Hd' : FS.is_dir (fs w') (Path.key (Path.dirname (output_path a))) = true).
  { rewrite Hfs, FSFacts.is_dir_append, (is_dir_dirs fs0 fs1) by done. done. }
  split; [done|].
  unfold FS.path_exists. rewrite Hd'.
  unfold dir_step in Hdir. rewrite Hno in Hdir.
  by rewrite (makedirs_nonempty _ _ _ Hdir).
Qed.

Lemma C5_witness :
  FS.path_exists (fs Toy.world) (Path.dirname (output_path Toy.args)) = false
  ∧ FS.is_dir (fs (main (Toy.lib false) Toy.args Toy.world).2) ["out"] = true.
Proof.
  split; [reflexivity|].
  apply (C5_output_directory_created (Toy.lib false) Toy.args Toy.world
           (main (Toy.lib false) Toy.args Toy.world).2).
  - reflexivity.
  - vm_compute. reflexivity.
Defined.

(** C6. For a valid precision the chain of tests selects the dtype of
    that width (16 gives float16, 32 float32, 64 float64).  Without
    TensorRT the placement statement moves the model to the accelerator
    when one is available and to the CPU otherwise, with that dtype: this
    is the only placement any run records, a run that got as far as
    building the loader records it, and a completed run records it
    exactly once. *)
Theorem C6_dtype_and_device_selection (L : Lib) (a : Args) (w : World) (dt : dtype) :
  dtype_bits dt = precision a →
  select_dtype (precision a) w = (Ok dt, w)
  ∧ (dtype_bits float16 = 16 ∧ dtype_bits float32 = 32 ∧ dtype_bits float64 = 64)
  ∧ (tensorrt a = false →
     let dev := if cuda_is_available L then cuda else cpu in
     (∀ net w0, (place_model L a net dt w0).1 = Ok (Eager net dev dt)
                ∧ placements (events_of (place_model L a net dt) w0) = [(dev, dt)])
     ∧ Forall (λ p, p = (dev, dt)) (placements (events_of (main L a) w))
     ∧ (∀ f b m, GetDataloader f b m ∈ events_of (main L a) w →
                 ModelTo dev dt ∈ events_of (main L a) w)
     ∧ (∀ w', main L a w = (Ok tt, w') →
              placements (events_of (main L a) w) = [(dev, dt)])).
Proof.
  intros Hdt. pose proof (proj2 (dtype_of_bits _ _) Hdt) as Hof.
  split; [by rewrite select_dtype_spec, Hof|]. split; [done|].
  intros Htrt dev. split; [|split; [|split]].
  - intros net w0. pose proof (place_model_spec L a net dt w0) as Hp.
    unfold placed in Hp. rewrite Htrt in Hp. rewrite Hp. split; [done|].
    rewrite (events_of_app _ _ (place_events L a dt)) by by rewrite Hp.
    by rewrite placements_place, Htrt.
  - apply Forall_forall. intros [dev' dt'] Hin.
    apply placements_elem in Hin.
    pose proof (emits_events _ _ _ w (main_emits L a)) as Hall.
    rewrite Forall_forall in Hall. specialize (Hall _ Hin). cbn in Hall.
    destruct Hall as (_ & -> & Hbits).
    rewrite <- Hdt in Hbits. by apply dtype_bits_inj in Hbits as ->.
  - intros f b m Hin.
    pose proof (main_reaches_placement L a w dt f b m Hin Hdt) as Hp.
    unfold placement_call in Hp. by rewrite Htrt in Hp.
  - intros w' Hmain.
    destruct (main_ok_run L _ _ _ Hmain) as (fs' & es & Hrun & _ & _ & ->).
    destruct (run_inv L _ _ _ _ Hrun)
      as (fs0 & t & net & bos & c0 & dt' & model & fs1 & c & dec & _ & _ & _ & _ & _ & Hdt'
          & _ & _ & _ & _ & _ & ->).
    rewrite Hof in Hdt'. injection Hdt' as <-.
    rewrite !placements_app, placements_dir, placements_place, placements_loop, Htrt.
    reflexivity.
Qed.

Lemma C6_witness :
  dtype_bits float32 = precision Toy.args
  ∧ select_dtype (precision Toy.args) Toy.world = (Ok float32, Toy.world)
  ∧ placements (events_of (main (Toy.lib true) Toy.args) Toy.world) = [(cuda, float32)]
  ∧ placements (events_of (main (Toy.lib false) Toy.args) Toy.world) = [(cpu, float32)].
Proof.
  split; [reflexivity|].
  destruct (C6_dtype_and_device_selection (Toy.lib true) Toy.args Toy.world float32)
    as (Hsel & _ & Hcuda); [reflexivity|].
  destruct (C6_dtype_and_device_selection (Toy.lib false) Toy.args Toy.world float32)
    as (_ & _ & Hcpu); [reflexivity|].
  split; [exact Hsel|]. split.
  - destruct (Hcuda eq_refl) as (_ & _ & _ & Hrun).
    apply (Hrun (main (Toy.lib true) Toy.args Toy.world).2). vm_compute. reflexivity.
  - destruct (Hcpu eq_refl) as (_ & _ & _ & Hrun).
    apply (Hrun (main (Toy.lib false) Toy.args Toy.world).2). vm_compute. reflexivity.
Defined.

(** C7. The compilation path and the standard placement exclude each
    other.  With [tensorrt] set, no run ever records a [model.to]; without
    it, no run ever records the import of the compiler, a tracing or a
    compilation; and every [generate] of a run is called on the compiled
    module exactly when [tensorrt] is set.  A run that got as far as
    building the loader with a valid precision entered the one branch its
    flag selects, so exactly one of the two; a completed run with
    [tensorrt] set has traced and compiled the model once and generated
    with the compiled module only. *)
Theorem C7_compilation_and_placement_exclusive (L : Lib) (a : Args) (w : World) :
  (tensorrt a = true → Forall (λ e, is_model_to e = false) (events_of (main L a) w))
  ∧ (tensorrt a = false → Forall (λ e, is_tensorrt e = false) (events_of (main L a) w))
  ∧ Forall (λ compiled, compiled = tensorrt a) (generate_modes (events_of (main L a) w))
  ∧ (∀ dt f b m,
       GetDataloader f b m ∈ events_of (main L a) w →
       dtype_bits dt = precision a →
       placement_call L a dt ∈ events_of (main L a) w
       ∧ (is_tensorrt (placement_call L a dt) = tensorrt a)
       ∧ (is_model_to (placement_call L a dt) = negb (tensorrt a)))
  ∧ (∀ w', main L a w = (Ok tt, w') → tensorrt a = true →
           ∃ dt, dtype_bits dt = precision a
                 ∧ tensorrt_calls (events_of (main L a) w)
                   = [ImportTensorrt; JitTrace (batch_size a) (max_length a);
                      TensorrtCompile (batch_size a) (max_length a) dt]
                 ∧ placements (events_of (main L a) w) = []).
Proof.
  pose proof (emits_events _ _ _ w (main_emits L a)) as Hall.
  split; [|split; [|split; [|split]]].
  - intros Htrt. eapply Forall_impl; [exact Hall|].
    intros e He. destruct e; try done. cbn in He. destruct He as [He _]. congruence.
  - intros Htrt. eapply Forall_impl; [exact Hall|].
    intros e He. destruct e; try done; cbn in He.
    + congruence.
    + destruct He as [He _]. congruence.
    + destruct He as [He _]. congruence.
  - apply Forall_forall. intros c Hc.
    apply generate_modes_elem in Hc as (rows & bos & Hin).
    rewrite Forall_forall in Hall. by specialize (Hall _ Hin).
  - intros dt f b m Hin Hdt. split; [by apply (main_reaches_placement L a w dt f b m)|].
    unfold placement_call. by destruct (tensorrt a).
  - intros w' Hmain Htrt.
    destruct (main_ok_run L _ _ _ Hmain) as (fs' & es & Hrun & _ & _ & ->).
    destruct (run_inv L _ _ _ _ Hrun)
      as (fs0 & t & net & bos & c0 & dt & model & fs1 & c & dec & _ & _ & _ & _ & _ & Hdt
          & _ & _ & _ & _ & _ & ->).
    exists dt. split; [by apply dtype_of_bits|].
    rewrite !tensorrt_calls_app, tensorrt_calls_dir, tensorrt_calls_loop.
    rewrite !placements_app, placements_dir, placements_place, placements_loop.
    unfold place_events. rewrite Htrt. done.
Qed.

Lemma C7_witness :
  placement_call (Toy.lib true) Toy.args_tensorrt float16
    ∈ events_of (main (Toy.lib true) Toy.args_tensorrt) Toy.world
  ∧ tensorrt_calls (events_of (main (Toy.lib true) Toy.args_tensorrt) Toy.world)
    = [ImportTensorrt; JitTrace 2 64; TensorrtCompile 2 64 float16]
  ∧ placements (events_of (main (Toy.lib true) Toy.args_tensorrt) Toy.world) = []
  ∧ Forall (λ e, is_tensorrt e = false) (events_of (main (Toy.lib true) Toy.args) Toy.world).
Proof.
  destruct (C7_compilation_and_placement_exclusive (Toy.lib true) Toy.args_tensorrt Toy.world)
    as (_ & _ & _ & Hreach & Hrun).
  destruct (C7_compilation_and_placement_exclusive (Toy.lib true) Toy.args Toy.world)
    as (_ & Hstd & _).
  split; [|split; [|split]].
  - apply (Hreach float16 "in.txt" 2 128); [|reflexivity].
    vm_compute. repeat constructor.
  - destruct (Hrun (main (Toy.lib true) Toy.args_tensorrt Toy.world).2) as (dt & Hdt & Hc & _);
      [vm_compute; reflexivity | reflexivity |].
    destruct dt; try discriminate Hdt. exact Hc.
  - destruct (Hrun (main (Toy.lib true) Toy.args_tensorrt Toy.world).2) as (dt & _ & _ & Hp);
      [vm_compute; reflexivity | reflexivity |]. exact Hp.
  - apply Hstd. reflexivity.
Defined.

(** C8. When a run completes, a second run with the same arguments on
    the world the first one left completes too and leaves the same file
    system: the output file is truncated when it is opened, so it holds
    the same text as after the first run, of the same length and with
    the same number of lines, and nothing of the earlier content is kept
    in front of it. *)
Theorem C8_second_run_same_output (L : Lib) (a : Args) (w w1 : World) :
  main L a w = (Ok tt, w1) →
  ∃ w2 out1 out2,
    main L a w1 = (Ok tt, w2)
    ∧ fs w2 = fs w1
    ∧ FS.content (fs w1) (output_path a) = Some out1
    ∧ FS.content (fs w2) (output_path a) = Some out2
    ∧ out2 = out1
    ∧ String.length out2 = String.length out1
    ∧ length (Text.lines out2) = length (Text.lines out1).
Proof.
  intros Hmain.
  destruct (main_ok_run L _ _ _ Hmain) as (fs' & es & Hrun & Hfs & _ & _).
  destruct (run_inv L _ _ _ _ Hrun)
    as (fs0 & t & net & bos & c0 & dt & model & fs1 & c & dec & Hdir & Ht & Hnet & Hbos
        & Hread0 & Hdt & Hplaced & Hopen & Hread & Hdec & -> & _).
  assert (Hdir1 : dir_step (output_path a) (fs w1) = Ok (fs w1)).
  { unfold dir_step. rewrite Hfs, path_exists_append.
    destruct (dir_step_inv _ _ _ Hdir) as (_ & _ & Hex).
    by rewrite (path_exists_open _ _ _ _ Hopen Hex). }
  pose proof (read_after_run L _ _ _ _ _ _ _ _ _ _ Hopen Hread Hdec) as Hread1.
  pose proof (open_truncate_again _ (written dec) _ _ Hopen) as Hopen1.
  rewrite <- Hfs in Hread1, Hopen1.
  destruct (run_intro L a (fs w1) (fs w1) fs1 t net bos c c dt model dec)
    as [es2 Hrun2]; try done.
  apply main_of_run in Hrun2.
  destruct (FS.content (fs w1) (output_path a)) as [out1|] eqn:Hout.
  - eexists _, out1, out1. split; [exact Hrun2|]. cbn [fs].
    rewrite <- Hfs. by rewrite Hout.
  - exfalso. rewrite Hfs, FSFacts.content_append in Hout.
    rewrite decide_True in Hout by done.
    by rewrite (content_after_open _ _ _ Hopen) in Hout.
Qed.

Lemma C8_witness :
  ∃ w2 out1 out2,
    main (Toy.lib false) Toy.args (main (Toy.lib false) Toy.args Toy.world).2 = (Ok tt, w2)
    ∧ fs w2 = fs (main (Toy.lib false) Toy.args Toy.world).2
    ∧ FS.content (fs (main (Toy.lib false) Toy.args Toy.world).2) "out/res.txt" = Some out1
    ∧ FS.content (fs w2) "out/res.txt" = Some out2
    ∧ out2 = out1
    ∧ String.length out2 = String.length out1
    ∧ length (Text.lines out2) = length (Text.lines out1).
Proof.
  apply (C8_second_run_same_output (Toy.lib false) Toy.args Toy.world
           (main (Toy.lib false) Toy.args Toy.world).2).
  vm_compute. reflexivity.
Defined.

(** C9. For an output path with no directory component (no separator, so
    that [os.path.dirname] gives the empty string), [os.path.exists]
    answers false, [os.makedirs] raises [FileNotFoundError], and [main]
    ends with that exception having made a single call, the one to
    [os.makedirs]: neither tokenizer nor model was loaded and nothing was
    translated. *)
Theorem C9_bare_output_path_raises (L : Lib) (a : Args) (w : World) :
  Path.has_sep (output_path a) = false →
  Path.dirname (output_path a) = ""
  ∧ FS.path_exists (fs w) "" = false
  ∧ FS.makedirs "" (fs w) = Raise FileNotFoundError
  ∧ main L a w = (Raise FileNotFoundError, {| fs := fs w; trace := trace w ++ [MakeDirs ""] |})
  ∧ events_of (main L a) w = [MakeDirs ""].
Proof.
  intros Hsep. apply PathFacts.dirname_empty in Hsep as Hd.
  assert (Hmain : main L a w
                  = (Raise FileNotFoundError,
                     {| fs := fs w; trace := trace w ++ [MakeDirs ""] |})).
  { unfold main. rewrite bind_unfold.
    unfold ensure_output_dir, os_path_exists, os_makedirs, fs_update, emit.
    rewrite Hd, !bind_unfold. reflexivity. }
  repeat split; try done.
  apply events_of_app. by rewrite Hmain.
Qed.

Lemma C9_witness :
  Path.has_sep (output_path Toy.args_bare) = false
  ∧ main (Toy.lib false) Toy.args_bare Toy.world
    = (Raise FileNotFoundError,
       {| fs := fs Toy.world; trace := trace Toy.world ++ [MakeDirs ""] |}).
Proof.
  split; [reflexivity|].
  apply (C9_bare_output_path_raises (Toy.lib false) Toy.args_bare Toy.world).
  reflexivity.
Defined.




(** * Further properties of [translate.py] *)

(** ** Rules of the judgements *)

Section KeepsRules.
Context (R : FS.t → list event → FS.t → Prop) `{!Composable R}.

Lemma keeps_ret {A} (Q : A → Prop) (a : A) : Q a → keeps R Q (ret a).
Proof.
  intros HQ w. exists []. cbn. rewrite app_nil_r.
  split; [done|]. split; [apply composable_nil | done].
Qed.

Lemma keeps_raise {A} (Q : A → Prop) (e : exn) : keeps R Q (raise e).
Proof.
  intros w. exists []. cbn. rewrite app_nil_r.
  split; [done|]. split; [apply composable_nil | done].
Qed.

Lemma keeps_from_option {A} (Q : A → Prop) (e : exn) (o : option A) :
  (∀ a, o = Some a → Q a) → keeps R Q (from_option e o).
Proof.
  intros HQ. destruct o as [a|]; [apply keeps_ret; auto | apply keeps_raise].
Qed.

Lemma keeps_fs_query {A} (Q : A → Prop) (f : FS.t → Result A) :
  (∀ a, Q a) → keeps R Q (fs_query f).
Proof.
  intros HQ w. exists []. unfold fs_query.
  destruct (f (fs w)); cbn; rewrite app_nil_r;
    (split; [done|]); (split; [apply composable_nil | done]).
Qed.

Lemma keeps_emit (Q : unit → Prop) (e : event) :
  (∀ f, R f [e] f) → Q tt → keeps R Q (emit e).
Proof. intros HR HQ w. exists [e]. cbn. by repeat split. Qed.

Lemma keeps_fs_update (Q : unit → Prop) (f : FS.t → Result FS.t) :
  (∀ f0 f1, f f0 = Ok f1 → R f0 [] f1) → Q tt → keeps R Q (fs_update f).
Proof.
  intros HR HQ w. exists []. unfold fs_update.
  destruct (f (fs w)) as [f1|e] eqn:E; cbn; rewrite app_nil_r;
    (split; [done|]); (split; [|done]).
  - by apply HR.
  - apply composable_nil.
Qed.

Lemma keeps_bind {A B} (Q : A → Prop) (Q' : B → Prop) (c : M A) (k : A → M B) :
  keeps R Q c → (∀ a, Q a → keeps R Q' (k a)) → keeps R Q' (bind c k).
Proof.
  intros Hc Hk w. rewrite bind_unfold.
  destruct (Hc w) as (es & Ht & HR & Hr).
  destruct (c w) as [[a|e] w1]; cbn in *.
  - destruct (Hk a Hr w1) as (es' & Ht' & HR' & Hr').
    exists (es ++ es'). rewrite Ht', Ht, app_assoc.
    split; [done|]. split; [by eapply composable_app | done].
  - exists es. by repeat split.
Qed.

End KeepsRules.

Section RaisesRules.
Context (E : exn → Prop).










End RaisesRules.

(** ** The exceptions of [main] *)




Section MainErrors.
Context (L : Lib).




End MainErrors.

(** ** The [with] statement, whatever happens in it *)

Section WithStatement.
Context (L : Lib).

(** The loop writes the batches before the first failure of [generate]
    and stops there. *)
Lemma for_each_translate_total (t : Tokenizer L) (m : Model L) (bos : Z)
    (out : string) (batches : list Batch) (w : World) :
  for_each (translate_batch L t m bos out) batches w =
  (loop_result (decode_prefix L t m bos batches).2,
   {| fs := FS.append out (written (decode_prefix L t m bos batches).1) (fs w);
      trace := trace w
               ++ loop_events out (is_compiled m) bos batches
                    (decode_prefix L t m bos batches).1
               ++ failed_call L m bos (decode_prefix L t m bos batches).2 |}).
Proof.
  revert w. induction batches as [|b batches IH]; intros w.
  - cbn. rewrite FSFacts.append_empty, app_nil_r. by destruct w.
  - cbn [for_each decode_prefix]. rewrite bind_unfold, translate_batch_spec.
    destruct (generate_with L m b bos) as [g|].
    + rewrite IH. destruct (decode_prefix L t m bos batches) as [decoded failed].
      cbn. rewrite FSFacts.append_append, <- !app_assoc. reflexivity.
    + cbn. by rewrite FSFacts.append_empty.
Qed.

(** The [with] statement in closed form: it stops when the output file
    cannot be opened, when the loader cannot read its file, or at the
    first failure of [generate]; the progress bar is closed in every case,
    and the output file whenever it was opened. *)
Lemma translate_file_total (t : Tokenizer L) (m : Model L) (bos : Z)
    (total : nat) (dl : DataLoader L) (out : string) (w : World) :
  translate_file L t m bos total dl out w =
  match FS.open_truncate out (fs w) with
  | Raise e =>
      (Raise e, {| fs := fs w;
                   trace := trace w ++ [PbarOpen total; FileOpen out; PbarClose] |})
  | Ok fs1 =>
      match FS.read (dl_filename dl) fs1 with
      | Raise e =>
          (Raise e, {| fs := fs1;
                       trace := trace w ++ [PbarOpen total; FileOpen out;
                                            FileClose out; PbarClose] |})
      | Ok content =>
          let batches := tokenized_batches dl content in
          (loop_result (decode_prefix L t m bos batches).2,
           {| fs := FS.append out (written (decode_prefix L t m bos batches).1) fs1;
              trace := trace w ++ [PbarOpen total; FileOpen out]
                       ++ loop_events out (is_compiled m) bos batches
                            (decode_prefix L t m bos batches).1
                       ++ failed_call L m bos (decode_prefix L t m bos batches).2
                       ++ [FileClose out; PbarClose] |})
      end
  end.
Proof.
  unfold translate_file, with_tqdm, with_open, iterate, finally, fs_update,
    fs_query, bind, emit, ret. cbn.
  destruct (FS.open_truncate out (fs w)) as [fs1|e]; cbn;
    [|by rewrite <- !app_assoc].
  destruct (FS.read (dl_filename dl) fs1) as [content|e]; cbn;
    [|by rewrite <- !app_assoc].
  rewrite for_each_translate_total.
  destruct (decode_prefix L t m bos _) as [decoded [b|]]; cbn;
    rewrite <- !app_assoc; reflexivity.
Qed.

End WithStatement.

(** ** What a run leaves of the file system *)

Global Instance only_output_changes_composable (out : string) :
  Composable (only_output_changes out).
Proof.
  split.
  - intros f. by split.
  - intros f0 f1 f2 es1 es2 [Hd1 Hf1] [Hd2 Hf2]. split.
    + set_solver.
    + intros k Hk. by rewrite Hf2, Hf1.
Qed.

Global Instance files_kept_until_open_composable (out : string) :
  Composable (files_kept_until_open out).
Proof.
  split.
  - by intros f _.
  - intros f0 f1 f2 es1 es2 H1 H2 Hno.
    rewrite H2, H1; [done| |]; intros Hin; apply Hno; set_solver.
Qed.

Section MainKeeps.
Context (L : Lib) (R : FS.t → list event → FS.t → Prop) `{!Composable R}.

(** One call that leaves the file system alone, then the rest. *)
Local Ltac keeps_call :=
  eapply (keeps_bind R (λ _, True)); [by apply (keeps_emit R) | intros _ _].

Local Ltac keeps_lib x :=
  eapply (keeps_bind R (λ _, True)); [by apply (keeps_from_option R) | intros x _].

(** A relation that holds of every single call, of [os.makedirs] and of
    the [with] statement holds of [main]. *)
Lemma main_keeps (a : Args) :
  (∀ f e, R f [e] f) →
  (∀ f0 f1 d, FS.makedirs d f0 = Ok f1 → R f0 [] f1) →
  (∀ t m bos total dl,
     keeps R (λ _, True) (translate_file L t m bos total dl (output_path a))) →
  keeps R (λ _, True) (main L a).
Proof.
  intros Hcall Hmk Hwith. unfold main.
  eapply (keeps_bind R (λ _, True)).
  { unfold ensure_output_dir, os_path_exists.
    eapply (keeps_bind R (λ _, True)).
    - intros w. exists []. cbn. rewrite app_nil_r.
      split; [done|]. split; [apply composable_nil | done].
    - intros there _. destruct (negb there); [|by apply (keeps_ret R)].
      unfold os_makedirs. keeps_call. apply (keeps_fs_update R); [|done].
      intros f0 f1. apply Hmk. }
  intros _ _. unfold print. keeps_call.
  eapply (keeps_bind R (λ _, True)).
  { unfold M2M100Tokenizer_from_pretrained. keeps_call. keeps_lib t.
    by apply (keeps_ret R). }
  intros tokenizer _. keeps_call.
  eapply (keeps_bind R (λ _, True)).
  { unfold M2M100ForConditionalGeneration_from_pretrained. keeps_call.
    by apply (keeps_from_option R). }
  intros net _. keeps_call. unfold lang_code_to_id_getitem. keeps_lib bos. keeps_call.
  eapply (keeps_bind R (λ _, True)).
  { unfold count_lines. keeps_call.
    eapply (keeps_bind R (λ _, True)); [by apply (keeps_fs_query R)|].
    intros c _. by apply (keeps_ret R). }
  intros total _. keeps_call.
  eapply (keeps_bind R (λ _, True)).
  { unfold get_dataloader. keeps_call. by apply (keeps_ret R). }
  intros dl _.
  eapply (keeps_bind R (λ _, True)).
  { intros w. rewrite select_dtype_spec. exists [].
    destruct (dtype_of (precision a)); cbn; rewrite app_nil_r;
      (split; [done|]); (split; [apply composable_nil | done]). }
  intros dt _.
  eapply (keeps_bind R (λ _, True)).
  { unfold place_model. destruct (tensorrt a).
    - unfold compile_with_tensorrt. keeps_call.
      eapply (keeps_bind R (λ _, True)).
      { destruct (tensorrt_installed L); [by apply (keeps_ret R) | apply (keeps_raise R)]. }
      intros _ _. keeps_lib x. keeps_call. keeps_lib tr. keeps_call. keeps_lib e.
      by apply (keeps_ret R).
    - unfold model_to, print. destruct (cuda_is_available L).
      + keeps_call. by apply (keeps_ret R).
      + eapply (keeps_bind R (λ _, True)).
        * keeps_call. by apply (keeps_ret R).
        * intros m _. keeps_call. by apply (keeps_ret R). }
  intros model _.
  eapply (keeps_bind R (λ _, True)); [apply Hwith|].
  intros _ _. by apply (keeps_emit R).
Qed.

End MainKeeps.

Section Frame.
Context (L : Lib).

Lemma only_output_changes_open (out : string) (f0 f1 : FS.t) :
  FS.open_truncate out f0 = Ok f1 → only_output_changes out f0 [] f1.
Proof.
  intros H. apply FSFacts.open_truncate_inv in H as [Hd Hf]. split.
  - by rewrite Hd.
  - intros k Hk. rewrite Hf. by rewrite lookup_insert_ne.
Qed.

Lemma only_output_changes_append (out text : string) (f : FS.t) (es : list event) :
  only_output_changes out f es (FS.append out text f).
Proof.
  split; [done|]. intros k Hk. unfold FS.append. cbn [FS.files].
  by rewrite lookup_alter_ne.
Qed.

Lemma translate_file_only_output (t : Tokenizer L) (m : Model L) (bos : Z)
    (total : nat) (dl : DataLoader L) (out : string) :
  keeps (only_output_changes out) (λ _, True) (translate_file L t m bos total dl out).
Proof.
  intros w. rewrite translate_file_total.
  destruct (FS.open_truncate out (fs w)) as [fs1|e] eqn:Hopen.
  - apply only_output_changes_open in Hopen.
    destruct (FS.read (dl_filename dl) fs1) as [content|e].
    + eexists. cbn. split; [reflexivity|]. split.
      * eapply (composable_app (R := only_output_changes out) _ _ _ [] _);
          [exact Hopen | apply only_output_changes_append].
      * by destruct (decode_prefix _ _ _ _ _).2.
    + eexists. cbn. split; [reflexivity|]. split; [|done].
      destruct Hopen. by split.
  - eexists. cbn. split; [reflexivity|]. by split.
Qed.

Lemma translate_file_opens (t : Tokenizer L) (m : Model L) (bos : Z)
    (total : nat) (dl : DataLoader L) (out : string) :
  keeps (files_kept_until_open out) (λ _, True)
        (translate_file L t m bos total dl out).
Proof.
  intros w. rewrite translate_file_total.
  destruct (FS.open_truncate out (fs w)) as [fs1|e];
    [destruct (FS.read (dl_filename dl) fs1) as [content|e]|];
    eexists; cbn; (split; [reflexivity|]); (split; [|try done]);
    try (intros Hno; exfalso; apply Hno; set_solver).
  by destruct (decode_prefix _ _ _ _ _).2.
Qed.

(** Every run of [main]: directories are only added, and no file but the
    output file changes. *)
Lemma main_only_output_changes (a : Args) :
  keeps (only_output_changes (output_path a)) (λ _, True) (main L a).
Proof.
  apply main_keeps; try apply _.
  - intros f e. by split.
  - intros f0 f1 d H. apply FSFacts.makedirs_inv in H as (Hf & Hd & _).
    split; [done|]. intros k _. by rewrite Hf.
  - intros. apply translate_file_only_output.
Qed.

Lemma main_files_kept_until_open (a : Args) :
  keeps (files_kept_until_open (output_path a)) (λ _, True) (main L a).
Proof.
  apply main_keeps; try apply _.
  - by intros f e _.
  - intros f0 f1 d H _. by apply FSFacts.makedirs_inv in H as (Hf & _).
  - intros. apply translate_file_opens.
Qed.

End Frame.

(** * Further properties of [main] *)

Section MainUntilWith.
Context (L : Lib).

Local Arguments translate_file : simpl never.
Local Arguments place_model : simpl never.
Local Arguments ensure_output_dir : simpl never.

(** A run that gets through the placement of the model enters the [with]
    statement in this world. *)
Lemma main_until_with (a : Args) (w : World) (fs0 : FS.t) (t : Tok L) (net : Net L)
    (bos : Z) (content : string) (dt : dtype) (model : Model L) :
  dir_step (output_path a) (fs w) = Ok fs0 →
  tokenizer_from_pretrained L (model_name a) = Some t →
  model_from_pretrained L (model_name a) = Some net →
  lang_code_to_id L t (target_lang a) = Some bos →
  FS.read (sentences_path a) fs0 = Ok content →
  dtype_of (precision a) = Some dt →
  placed L a net dt = Some model →
  main L a w =
  (do! translate_file L (mkTokenizer t (Some (source_lang a))) model bos
         (length (Text.lines content)) (loader L a t) (output_path a) in
   print ("Translation done." +:+ Text.NL))%py
    {| fs := fs0;
       trace := trace w ++ dir_events (output_path a) (fs w)
                ++ [Print "Loading tokenizer..."; TokenizerFromPretrained (model_name a);
                    Print "Loading model..."; ModelFromPretrained (model_name a);
                    Print ("Model loaded." +:+ Text.NL); ModelEval;
                    CountLines (sentences_path a);
                    Print ("We will translate " +:+ pretty (length (Text.lines content))
                           +:+ " lines.");
                    GetDataloader (sentences_path a) (batch_size a) 128]
                ++ place_events L a dt |}.
Proof.
  intros Hdir Ht Hnet Hbos Hread Hdt Hplaced.
  unfold main. rewrite bind_unfold.
  pose proof (ensure_output_dir_spec (output_path a) w) as H0.
  rewrite Hdir in H0. rewrite H0.
  unfold M2M100Tokenizer_from_pretrained, M2M100ForConditionalGeneration_from_pretrained,
    lang_code_to_id_getitem, set_src_lang, count_lines, get_dataloader, print,
    fs_query, from_option, emit, bind, ret, raise. cbn.
  rewrite Ht. cbn. rewrite Hnet. cbn. rewrite Hbos. cbn. rewrite Hread. cbn.
  rewrite select_dtype_spec, Hdt. cbn.
  match goal with |- context [place_model L a net dt ?w1] =>
    pose proof (place_model_spec L a net dt w1) as Hm
  end.
  rewrite Hplaced in Hm. rewrite Hm. cbn.
  fold (loader L a t). rewrite <- !app_assoc. reflexivity.
Qed.

End MainUntilWith.

(** X2. Called directly with a precision other than 16, 32 and 64, [main]
    raises its [ValueError] only after it created the output directory,
    loaded tokenizer and model, counted the lines and built the loader:
    these are exactly the calls it made, the model was not placed and the
    output file was not opened. *)
Theorem X2_precision_checked_after_loading (L : Lib) (a : Args) (w : World)
    (fs0 : FS.t) (t : Tok L) (net : Net L) (bos : Z) (content : string) :
  dtype_of (precision a) = None →
  dir_step (output_path a) (fs w) = Ok fs0 →
  tokenizer_from_pretrained L (model_name a) = Some t →
  model_from_pretrained L (model_name a) = Some net →
  lang_code_to_id L t (target_lang a) = Some bos →
  FS.read (sentences_path a) fs0 = Ok content →
  main L a w =
  (Raise (ValueError "Precision must be 16, 32 or 64."),
   {| fs := fs0;
      trace := trace w ++ dir_events (output_path a) (fs w)
               ++ [Print "Loading tokenizer..."; TokenizerFromPretrained (model_name a);
                   Print "Loading model..."; ModelFromPretrained (model_name a);
                   Print ("Model loaded." +:+ Text.NL); ModelEval;
                   CountLines (sentences_path a);
                   Print ("We will translate " +:+ pretty (length (Text.lines content))
                          +:+ " lines.");
                   GetDataloader (sentences_path a) (batch_size a) 128] |}).
Proof. apply main_checks_precision_after_loading. Qed.

Lemma X2_witness :
  main (Toy.lib false) Toy.args_precision_8 Toy.world =
  (Raise (ValueError "Precision must be 16, 32 or 64."),
   {| fs := fs (main (Toy.lib false) Toy.args_precision_8 Toy.world).2;
      trace := trace Toy.world ++ dir_events "out/res.txt" (fs Toy.world)
               ++ [Print "Loading tokenizer..."; TokenizerFromPretrained "facebook/m2m100_1.2B";
                   Print "Loading model..."; ModelFromPretrained "facebook/m2m100_1.2B";
                   Print ("Model loaded." +:+ Text.NL); ModelEval;
                   CountLines "in.txt";
                   Print ("We will translate " +:+ pretty (length (Text.lines Toy.input_text))
                          +:+ " lines.");
                   GetDataloader "in.txt" 2 128] |}).
Proof.
  apply (X2_precision_checked_after_loading (Toy.lib false) Toy.args_precision_8
           Toy.world (fs (main (Toy.lib false) Toy.args_precision_8 Toy.world).2)
           tt tt 128022 Toy.input_text);
    vm_compute; reflexivity.
Defined.

(** X3. When the loaded tokenizer has no code for the target language,
    [main] raises [KeyError] for that language right after printing that
    the model was loaded: both the tokenizer and the model were loaded
    first, while the model was not put in evaluation mode, the lines were
    not counted and the output file was not opened. *)
Theorem X3_unknown_target_language (L : Lib) (a : Args) (w : World)
    (fs0 : FS.t) (t : Tok L) (net : Net L) :
  dir_step (output_path a) (fs w) = Ok fs0 →
  tokenizer_from_pretrained L (model_name a) = Some t →
  model_from_pretrained L (model_name a) = Some net →
  lang_code_to_id L t (target_lang a) = None →
  main L a w =
  (Raise (KeyError (target_lang a)),
   {| fs := fs0;
      trace := trace w ++ dir_events (output_path a) (fs w)
               ++ [Print "Loading tokenizer..."; TokenizerFromPretrained (model_name a);
                   Print "Loading model..."; ModelFromPretrained (model_name a);
                   Print ("Model loaded." +:+ Text.NL)] |}).
Proof.
  intros Hdir Ht Hnet Hbos.
  unfold main. rewrite bind_unfold.
  pose proof (ensure_output_dir_spec (output_path a) w) as H0.
  rewrite Hdir in H0. rewrite H0.
  unfold M2M100Tokenizer_from_pretrained, M2M100ForConditionalGeneration_from_pretrained,
    lang_code_to_id_getitem, set_src_lang, print, from_option, emit, bind, ret, raise.
  cbn. rewrite Ht. cbn. rewrite Hnet. cbn. rewrite Hbos. cbn.
  do 2 f_equal. rewrite <- !app_assoc. reflexivity.
Qed.

Lemma X3_witness :
  main (Toy.lib false) Toy.args_unknown_lang Toy.world =
  (Raise (KeyError "xx"),
   {| fs := fs (main (Toy.lib false) Toy.args_unknown_lang Toy.world).2;
      trace := trace Toy.world ++ dir_events "out/res.txt" (fs Toy.world)
               ++ [Print "Loading tokenizer..."; TokenizerFromPretrained "facebook/m2m100_1.2B";
                   Print "Loading model..."; ModelFromPretrained "facebook/m2m100_1.2B";
                   Print ("Model loaded." +:+ Text.NL)] |}).
Proof.
  apply (X3_unknown_target_language (Toy.lib false) Toy.args_unknown_lang
           Toy.world (fs (main (Toy.lib false) Toy.args_unknown_lang Toy.world).2)
           tt tt);
    vm_compute; reflexivity.
Defined.


(** X5. A run of [main] that ends before it opens the output file, for
    whatever reason, leaves every file as it was: an output file of an
    earlier run keeps its content. *)
Theorem X5_files_kept_until_open (L : Lib) (a : Args) (w : World) :
  FileOpen (output_path a) ∉ events_of (main L a) w →
  FS.files (fs (main L a w).2) = FS.files (fs w).
Proof.
  intros Hno. destruct (main_files_kept_until_open L a w) as (es & Ht & H & _).
  apply H. by rewrite (events_of_app _ _ _ Ht) in Hno.
Qed.

Lemma X5_witness :
  (FileOpen "out/res.txt" ∉ events_of (main (Toy.lib false) Toy.args_precision_8) Toy.world)
  ∧ FS.files (fs (main (Toy.lib false) Toy.args_precision_8 Toy.world).2)
    = FS.files (fs Toy.world).
Proof.
  assert (FileOpen "out/res.txt"
          ∉ events_of (main (Toy.lib false) Toy.args_precision_8) Toy.world) as H.
  { intros H. vm_compute in H.
    repeat (inversion H as [|? ? ? H']; clear H; rename H' into H). }
  split; [exact H|].
  exact (X5_files_kept_until_open (Toy.lib false) Toy.args_precision_8 Toy.world H).
Defined.



(** ** The last message and the forced first token *)

Lemma ends_emit (P : event → Prop) (e : event) : ends P e (emit e).
Proof. intros w. exists [e]. cbn. split; [done|]. by exists []. Qed.

Lemma ends_bind {A B} (P : event → Prop) (Q : A → Prop) (e : event)
    (c : M A) (k : A → M B) :
  emits P Q c → (∀ a, Q a → ends P e (k a)) → ends P e (bind c k).
Proof.
  intros Hc Hk w. rewrite bind_unfold.
  destruct (Hc w) as (es & Ht & HP & Hr).
  destruct (c w) as [[a|x] w1]; cbn in *.
  - destruct (Hk a Hr w1) as (es' & Ht' & Hr').
    exists (es ++ es'). rewrite Ht', Ht, app_assoc. split; [done|].
    destruct ((k a w1).1).
    + destruct Hr' as (es'' & -> & HP'). exists (es ++ es'').
      split; [by rewrite app_assoc | by apply Forall_app].
    + by apply Forall_app.
  - by exists es.
Qed.

Lemma print_not_done (text : string) :
  String.get 0 text ≠ Some "T"%char → Print text ≠ done_message.
Proof. intros H [= ->]. by apply H. Qed.

Section MainEnds.
Context (L : Lib).

Local Ltac quiet := first [by apply print_not_done | by intros [=]].

Local Ltac ends_call :=
  eapply ends_bind with (Q := λ _, True);
    [apply emits_emit; [quiet | done] | intros _ _].

Lemma place_model_quiet (a : Args) (net : Net L) (dt : dtype) :
  emits (λ e, e ≠ done_message) (λ _, True) (place_model L a net dt).
Proof.
  unfold place_model, compile_with_tensorrt, model_to, print.
  destruct (tensorrt a).
  - eapply emits_bind with (Q := λ _, True); [apply emits_emit; [quiet | done]|].
    intros _ _. eapply emits_bind with (Q := λ _, True).
    { destruct (tensorrt_installed L); [by apply emits_ret | apply emits_raise]. }
    intros _ _. emits_lib x.
    eapply emits_bind with (Q := λ _, True); [apply emits_emit; [quiet | done]|].
    intros _ _. emits_lib tr.
    eapply emits_bind with (Q := λ _, True); [apply emits_emit; [quiet | done]|].
    intros _ _. emits_lib e. by apply emits_ret.
  - destruct (cuda_is_available L).
    + eapply emits_bind with (Q := λ _, True); [apply emits_emit; [quiet | done]|].
      intros _ _. by apply emits_ret.
    + eapply emits_bind with (Q := λ _, True).
      * eapply emits_bind with (Q := λ _, True); [apply emits_emit; [quiet | done]|].
        intros _ _. by apply emits_ret.
      * intros m _.
        eapply emits_bind with (Q := λ _, True); [apply emits_emit; [quiet | done]|].
        intros _ _. by apply emits_ret.
Qed.

(** [main] prints its last message when it returns, and only then. *)
Lemma main_ends (a : Args) : ends (λ e, e ≠ done_message) done_message (main L a).
Proof.
  unfold main.
  eapply ends_bind with (Q := λ _, True); [apply ensure_output_dir_emits; quiet|].
  intros _ _. unfold print. ends_call.
  eapply ends_bind with (Q := λ _, True); [apply tokenizer_from_pretrained_emits; quiet|].
  intros tokenizer _. ends_call.
  eapply ends_bind with (Q := λ _, True); [apply model_from_pretrained_emits; quiet|].
  intros net _. ends_call. unfold lang_code_to_id_getitem.
  eapply ends_bind with (Q := λ _, True); [by apply emits_from_option|].
  intros bos _. ends_call.
  eapply ends_bind with (Q := λ _, True); [apply count_lines_emits; quiet|].
  intros total _. ends_call.
  eapply ends_bind with (Q := λ _, True); [apply get_dataloader_emits; quiet|].
  intros dl _.
  eapply ends_bind; [apply select_dtype_emits|]. intros dt _.
  eapply ends_bind; [apply place_model_quiet|]. intros model _.
  eapply ends_bind with (Q := λ _, True); [|intros _ _; apply ends_emit].
  apply translate_file_emits; try quiet; intros; quiet.
Qed.

(** The first token every call of [generate] forces. *)
Lemma main_forces_target (a : Args) : emits (forces_target L a) (λ _, True) (main L a).
Proof.
  unfold main.
  eapply emits_bind with (Q := λ _, True); [by apply ensure_output_dir_emits|].
  intros _ _. unfold print. emits_call.
  eapply emits_bind
    with (Q := λ tk, tokenizer_from_pretrained L (model_name a) = Some (tok tk)).
  { unfold M2M100Tokenizer_from_pretrained. emits_call.
    eapply emits_bind
      with (Q := λ t, tokenizer_from_pretrained L (model_name a) = Some t);
      [by apply emits_from_option|].
    intros t Ht. by apply emits_ret. }
  intros tokenizer Htok. emits_call.
  eapply emits_bind with (Q := λ _, True); [by apply model_from_pretrained_emits|].
  intros net _. emits_call. unfold lang_code_to_id_getitem.
  eapply emits_bind
    with (Q := λ bos, lang_code_to_id L (tok tokenizer) (target_lang a) = Some bos);
    [by apply emits_from_option|].
  intros bos Hbos. emits_call.
  eapply emits_bind with (Q := λ _, True); [by apply count_lines_emits|].
  intros total _. emits_call.
  eapply emits_bind with (Q := λ _, True); [by apply get_dataloader_emits|].
  intros dl _.
  eapply emits_bind; [apply select_dtype_emits|]. intros dt _.
  eapply emits_bind.
  { apply place_model_emits; intros _; by cbn. }
  intros model _.
  eapply emits_bind with (Q := λ _, True); [|intros _ _; by apply emits_emit].
  apply translate_file_emits; cbn; try done.
  intros rows. by exists (tok tokenizer).
Qed.

End MainEnds.

(** X7. [main] prints [Translation done.] exactly when it returns: the
    message is the last call of a run that completes, and no run that ends
    with an exception has printed it. *)
Theorem X7_done_message_iff_completed (L : Lib) (a : Args) (w : World) :
  ((main L a w).1 = Ok tt ↔ done_message ∈ events_of (main L a) w)
  ∧ ((main L a w).1 = Ok tt → last (events_of (main L a) w) = Some done_message).
Proof.
  destruct (main_ends L a w) as (es & Ht & H).
  rewrite (events_of_app _ _ _ Ht).
  destruct (main L a w).1 as [[]|e].
  - destruct H as (es' & -> & _). split; [|intros _; apply last_snoc].
    split; [intros _; set_solver | done].
  - split; [|done]. split; [done|]. intros Hin.
    rewrite Forall_forall in H. by destruct (H _ Hin).
Qed.

(** X8. Every call of [generate] a run of [main] makes, in any batch and
    on the loaded or the compiled model, forces as first token the code
    the loaded tokenizer has for the target language. *)
Theorem X8_generate_forces_target_language (L : Lib) (a : Args) (w : World) :
  Forall (λ bos, ∃ t, tokenizer_from_pretrained L (model_name a) = Some t
                      ∧ lang_code_to_id L t (target_lang a) = Some bos)
         (forced_bos_ids (events_of (main L a) w)).
Proof.
  pose proof (emits_events _ _ _ w (main_forces_target L a)) as Hall.
  unfold forced_bos_ids. apply Forall_forall.
  intros bos Hin. rewrite Forall_forall in Hall. apply list_elem_of_omap in Hin as (e & He & Hbos).
  specialize (Hall e He). destruct e; try done. by injection Hbos as <-.
Qed.

(** ** The progress bar *)





(** ** The command line, option by option *)

Section Options.
Context (L : Lib).

Lemma last_given_cons (o : option_id) (arg : cli_arg) (argv : list cli_arg) :
  last (given o (arg :: argv))
  = match last (given o argv) with
    | Some v => Some v
    | None => arg_value o arg
    end.
Proof.
  unfold given. cbn [omap list_omap]. destruct (arg_value o arg) as [v|]; cbn.
  - by rewrite last_cons.
  - by destruct (last _).
Qed.

(** What one word stores: the destination of its option, and nothing
    else. *)
Lemma parse_arg_fields (ns ns' : Namespace) (arg : cli_arg) :
  parse_arg L ns arg = inr ns' →
  ns_sentences_path ns'
  = match arg_value opt_sentences_path arg with
    | Some v => Some v
    | None => ns_sentences_path ns
    end
  ∧ ns_output_path ns'
    = match arg_value opt_output_path arg with
      | Some v => Some v
      | None => ns_output_path ns
      end
  ∧ ns_source_lang ns'
    = match arg_value opt_source_lang arg with
      | Some v => Some v
      | None => ns_source_lang ns
      end
  ∧ ns_target_lang ns'
    = match arg_value opt_target_lang arg with
      | Some v => Some v
      | None => ns_target_lang ns
      end
  ∧ ns_model_name ns' = default (ns_model_name ns) (arg_value opt_model_name arg)
  ∧ match arg_value opt_batch_size arg with
    | Some v => py_int L v = Some (ns_batch_size ns')
    | None => ns_batch_size ns' = ns_batch_size ns
    end
  ∧ match arg_value opt_precision arg with
    | Some v => py_int L v = Some (ns_precision ns')
                ∧ ns_precision ns' ∈ precision_choices
    | None => ns_precision ns' = ns_precision ns
    end
  ∧ ns_tensorrt ns' = ns_tensorrt ns || is_flag opt_tensorrt arg.
Proof.
  unfold parse_arg, arg_value, is_flag.
  destruct arg as [name v|name]; cbn [arg_name];
    destruct (resolve name) as [o| |]; try done.
  - unfold store. destruct o; try done;
      try destruct (py_int L v) eqn:?; try done; try case_bool_decide; try done;
      intros Heq; injection Heq as <-;
      cbn -[precision_choices]; rewrite ?orb_false_r; by repeat split.
  - intros [= <-]. cbn. rewrite orb_false_r. by repeat split.
  - destruct o; try done. intros [= <-]. cbn. rewrite orb_true_r. by repeat split.
  - intros [= <-]. cbn. rewrite orb_false_r. by repeat split.
Qed.

(** Word after word: the last value given for an option is the one
    kept, and an option that was not given keeps what it had. *)
Lemma parse_known_fields (argv : list cli_arg) (ns ns' : Namespace) :
  parse_known L ns argv = inr ns' →
  ns_sentences_path ns'
  = match last (given opt_sentences_path argv) with
    | Some v => Some v
    | None => ns_sentences_path ns
    end
  ∧ ns_output_path ns'
    = match last (given opt_output_path argv) with
      | Some v => Some v
      | None => ns_output_path ns
      end
  ∧ ns_source_lang ns'
    = match last (given opt_source_lang argv) with
      | Some v => Some v
      | None => ns_source_lang ns
      end
  ∧ ns_target_lang ns'
    = match last (given opt_target_lang argv) with
      | Some v => Some v
      | None => ns_target_lang ns
      end
  ∧ ns_model_name ns' = default (ns_model_name ns) (last (given opt_model_name argv))
  ∧ match last (given opt_batch_size argv) with
    | Some v => py_int L v = Some (ns_batch_size ns')
    | None => ns_batch_size ns' = ns_batch_size ns
    end
  ∧ match last (given opt_precision argv) with
    | Some v => py_int L v = Some (ns_precision ns')
                ∧ ns_precision ns' ∈ precision_choices
    | None => ns_precision ns' = ns_precision ns
    end
  ∧ ns_tensorrt ns' = ns_tensorrt ns || flag_given opt_tensorrt argv.
Proof.
  revert ns. induction argv as [|arg argv IH]; intros ns; cbn [parse_known].
  - intros [= <-]. cbn. rewrite orb_false_r. by repeat split.
  - destruct (parse_arg L ns arg) as [msg|ns1] eqn:Harg; [done|]. intros Hrest.
    destruct (parse_arg_fields _ _ _ Harg) as (A1 & A2 & A3 & A4 & A5 & A6 & A7 & A8).
    destruct (IH _ Hrest) as (B1 & B2 & B3 & B4 & B5 & B6 & B7 & B8).
    rewrite !last_given_cons. unfold flag_given. cbn [existsb].
    fold (flag_given opt_tensorrt argv).
    rewrite B1, B2, B3, B4, B5, B8, A1, A2, A3, A4, A5, A8.
    repeat split.
    + by destruct (last (given opt_sentences_path argv)).
    + by destruct (last (given opt_output_path argv)).
    + by destruct (last (given opt_source_lang argv)).
    + by destruct (last (given opt_target_lang argv)).
    + by destruct (last (given opt_model_name argv)).
    + destruct (last (given opt_batch_size argv)); [done|].
      destruct (arg_value opt_batch_size arg); congruence.
    + destruct (last (given opt_precision argv)); [done|].
      destruct (arg_value opt_precision arg); [by rewrite B7 | congruence].
    + by rewrite orb_assoc.
Qed.


(** The help is printed only when some word asks for it. *)
Lemma parse_known_help (argv : list cli_arg) (ns : Namespace) :
  parse_known L ns argv = inl Help → flag_given opt_help argv = true.
Proof.
  revert ns. induction argv as [|arg argv IH]; intros ns; cbn [parse_known]; [done|].
  unfold flag_given. cbn [existsb]. fold (flag_given opt_help argv).
  destruct (parse_arg L ns arg) as [e|ns1] eqn:Harg.
  - intros [= ->]. by rewrite (parse_arg_help L ns arg Harg).
  - intros H. rewrite (IH _ H). apply orb_true_r.
Qed.

Lemma parse_args_inv (argv : list cli_arg) (a : Args) :
  parse_args L argv = inr a →
  ∃ ns, parse_known L defaults argv = inr ns
        ∧ ns_sentences_path ns = Some (sentences_path a)
        ∧ ns_output_path ns = Some (output_path a)
        ∧ ns_source_lang ns = Some (source_lang a)
        ∧ ns_target_lang ns = Some (target_lang a)
        ∧ batch_size a = ns_batch_size ns
        ∧ model_name a = ns_model_name ns
        ∧ tensorrt a = ns_tensorrt ns
        ∧ precision a = ns_precision ns
        ∧ max_length a = 128
        ∧ Forall (λ arg, ∃ o, resolve (arg_name arg) = Resolved o) argv.
Proof.
  unfold parse_args.
  destruct (existsb (λ arg, bool_decide (resolve (arg_name arg) = Ambiguous)) argv)
    eqn:Hamb; [done|].
  destruct (parse_known L defaults argv) as [msg|ns]; [done|].
  destruct (ns_sentences_path ns) as [sp|] eqn:E1; [|done].
  destruct (ns_output_path ns) as [op|] eqn:E2; [|done].
  destruct (ns_source_lang ns) as [sl|] eqn:E3; [|done].
  destruct (ns_target_lang ns) as [tl|] eqn:E4; [|done].
  destruct (existsb (λ arg, bool_decide (resolve (arg_name arg) = Unknown)) argv)
    eqn:Hunk; [done|].
  intros [= <-]. exists ns. repeat split; try done.
  apply Forall_forall. intros arg Hin.
  destruct (resolve (arg_name arg)) as [o| |] eqn:Hr; [by eauto| |]; exfalso.
  - apply not_true_iff_false in Hamb. apply Hamb, existsb_exists.
    exists arg. split; [by apply list_elem_of_In|]. by apply bool_decide_eq_true.
  - apply not_true_iff_false in Hunk. apply Hunk, existsb_exists.
    exists arg. split; [by apply list_elem_of_In|]. by apply bool_decide_eq_true.
Qed.

(** What [parser.error] leaves: status 2 and the world as it was. *)
Lemma script_usage (argv : list cli_arg) (w : World) :
  (∀ a, parse_args L argv ≠ inr a) →
  flag_given opt_help argv = false →
  script L argv w = (2, w).
Proof.
  intros Hno Hhelp. unfold script.
  destruct (parse_args L argv) as [[msg|]|a] eqn:Hparse; [done| |by destruct (Hno a)].
  exfalso. unfold parse_args in Hparse.
  destruct (existsb _ argv); [done|].
  destruct (parse_known L defaults argv) as [e|ns] eqn:Hk.
  - injection Hparse as ->. apply parse_known_help in Hk. congruence.
  - destruct (ns_sentences_path ns), (ns_output_path ns), (ns_source_lang ns),
      (ns_target_lang ns); try done.
    by destruct (existsb _ argv).
Qed.

End Options.

(** X10. When one of the four required options is given no value, under
    its name or an abbreviation of it, and the help is not asked for,
    [parser.parse_args()] ends the script with status 2 before [main] is
    entered: nothing is created, loaded or written. *)
Theorem X10_missing_required_option (L : Lib) (argv : list cli_arg) (w : World)
    (o : option_id) :
  forallb option_word argv = true →
  o ∈ required_options →
  given o argv = [] →
  flag_given opt_help argv = false →
  script L argv w = (2, w).
Proof.
  intros _ Ho Hnone Hhelp. apply script_usage; [|done].
  intros a Hparse.
  destruct (parse_args_inv L _ _ Hparse)
    as (ns & Hns & E1 & E2 & E3 & E4 & _).
  destruct (parse_known_fields L _ _ _ Hns) as (F1 & F2 & F3 & F4 & _).
  unfold required_options in Ho.
  rewrite !elem_of_cons, elem_of_nil in Ho.
  destruct Ho as [->|[->|[->|[->|[]]]]]; rewrite Hnone in *; cbn in *; congruence.
Qed.

Lemma X10_witness : script (Toy.lib false) Toy.argv_no_target Toy.world = (2, Toy.world).
Proof.
  apply (X10_missing_required_option (Toy.lib false) Toy.argv_no_target Toy.world
           opt_target_lang).
  - reflexivity.
  - unfold required_options. do 3 right. left.
  - reflexivity.
  - reflexivity.
Defined.





(** ** The directory of the output file *)

Section OutputDirectory.
Context (L : Lib).

Local Arguments ensure_output_dir : simpl never.

(** After its first statement [main] goes on as a run started where the
    directory is there. *)
Lemma main_after_dir (a : Args) (w : World) (fs0 : FS.t) :
  dir_step (output_path a) (fs w) = Ok fs0 →
  main L a w
  = main L a {| fs := fs0; trace := trace w ++ dir_events (output_path a) (fs w) |}.
Proof.
  intros Hdir. unfold main. rewrite !bind_unfold.
  pose proof (ensure_output_dir_spec (output_path a) w) as H0.
  rewrite Hdir in H0. rewrite H0.
  destruct (dir_step_inv _ _ _ Hdir) as (_ & _ & Hex).
  pose proof (ensure_output_dir_spec (output_path a)
                {| fs := fs0; trace := trace w ++ dir_events (output_path a) (fs w) |}) as H1.
  unfold dir_step in H1. cbn [fs trace] in H1. rewrite Hex in H1.
  assert (dir_events (output_path a) fs0 = []) as Hnil.
  { unfold dir_events. by rewrite Hex. }
  rewrite Hnil, app_nil_r in H1. by rewrite H1.
Qed.

End OutputDirectory.

(** X13. When [os.path.exists] does not find the directory of the output
    path and [os.makedirs] creates it, the directory is there at the end
    of the run however the run ends: a run that fails later, while
    loading or translating, leaves the new directory behind. *)
Theorem X13_created_directory_outlives_failure (L : Lib) (a : Args) (w : World)
    (fs0 : FS.t) :
  FS.path_exists (fs w) (Path.dirname (output_path a)) = false →
  FS.makedirs (Path.dirname (output_path a)) (fs w) = Ok fs0 →
  FS.is_dir (fs (main L a w).2) (Path.key (Path.dirname (output_path a))) = true
  ∧ FS.path_exists (fs (main L a w).2) (Path.dirname (output_path a)) = true.
Proof.
  intros Hno Hmk.
  assert (Hdir : dir_step (output_path a) (fs w) = Ok fs0).
  { unfold dir_step. by rewrite Hno. }
  pose proof (dir_step_created _ _ _ Hno Hdir) as Hd.
  rewrite (main_after_dir L a w fs0 Hdir).
  destruct (main_only_output_changes L a
              {| fs := fs0; trace := trace w ++ dir_events (output_path a) (fs w) |})
    as (es & _ & [Hsub _] & _). cbn [fs] in Hsub.
  match goal with |- FS.is_dir ?f ?k = true ∧ _ =>
    assert (Hd' : FS.is_dir f k = true)
  end.
  { unfold FS.is_dir in Hd |- *.
    apply orb_true_iff in Hd as [Hd|Hd]; [by rewrite Hd|].
    apply bool_decide_eq_true in Hd. apply orb_true_iff. right.
    apply bool_decide_eq_true. by apply Hsub. }
  split; [done|]. unfold FS.path_exists. rewrite Hd'.
  by rewrite (makedirs_nonempty _ _ _ Hmk).
Qed.

Lemma X13_witness :
  FS.is_dir (fs (main (Toy.lib false) Toy.args_precision_8 Toy.world).2) ["out"] = true
  ∧ FS.path_exists (fs (main (Toy.lib false) Toy.args_precision_8 Toy.world).2) "out" = true.
Proof.
  apply (X13_created_directory_outlives_failure (Toy.lib false) Toy.args_precision_8
           Toy.world (fs (ensure_output_dir "out/res.txt" Toy.world).2)).
  - reflexivity.
  - vm_compute. reflexivity.
Defined.

(** X14. When the output file cannot be opened, for instance because the
    output path names a directory, [main] ends with the error of [open]
    only after it loaded and placed the model: the progress bar that was
    opened is closed again, no batch is generated and no file is
    changed. *)
Theorem X14_unopenable_output_fails_after_loading (L : Lib) (a : Args) (w : World)
    (fs0 : FS.t) (t : Tok L) (net : Net L) (bos : Z) (content : string)
    (dt : dtype) (model : Model L) (e : exn) :
  dir_step (output_path a) (fs w) = Ok fs0 →
  tokenizer_from_pretrained L (model_name a) = Some t →
  model_from_pretrained L (model_name a) = Some net →
  lang_code_to_id L t (target_lang a) = Some bos →
  FS.read (sentences_path a) fs0 = Ok content →
  dtype_of (precision a) = Some dt →
  placed L a net dt = Some model →
  FS.open_truncate (output_path a) fs0 = Raise e →
  main L a w =
  (Raise e,
   {| fs := fs0;
      trace := trace w ++ dir_events (output_path a) (fs w)
               ++ [Print "Loading tokenizer..."; TokenizerFromPretrained (model_name a);
                   Print "Loading model..."; ModelFromPretrained (model_name a);
                   Print ("Model loaded." +:+ Text.NL); ModelEval;
                   CountLines (sentences_path a);
                   Print ("We will translate " +:+ pretty (length (Text.lines content))
                          +:+ " lines.");
                   GetDataloader (sentences_path a) (batch_size a) 128]
               ++ place_events L a dt
               ++ [PbarOpen (length (Text.lines content)); FileOpen (output_path a);
                   PbarClose] |}).
Proof.
  intros Hdir Ht Hnet Hbos Hread Hdt Hplaced Hopen.
  rewrite (main_until_with L a w fs0 t net bos content dt model) by done.
  rewrite bind_unfold, translate_file_total. cbn [fs trace].
  rewrite Hopen. do 2 f_equal. by rewrite <- !app_assoc.
Qed.

Lemma X14_witness :
  main (Toy.lib false) Toy.args_dir_output Toy.world =
  (Raise IsADirectoryError,
   {| fs := fs (ensure_output_dir "out/" Toy.world).2;
      trace := trace Toy.world ++ dir_events "out/" (fs Toy.world)
               ++ [Print "Loading tokenizer..."; TokenizerFromPretrained "facebook/m2m100_1.2B";
                   Print "Loading model..."; ModelFromPretrained "facebook/m2m100_1.2B";
                   Print ("Model loaded." +:+ Text.NL); ModelEval;
                   CountLines "in.txt";
                   Print ("We will translate " +:+ pretty (length (Text.lines Toy.input_text))
                          +:+ " lines.");
                   GetDataloader "in.txt" 2 128]
               ++ place_events (Toy.lib false) Toy.args_dir_output float32
               ++ [PbarOpen (length (Text.lines Toy.input_text)); FileOpen "out/";
                   PbarClose] |}).
Proof.
  apply (X14_unopenable_output_fails_after_loading (Toy.lib false) Toy.args_dir_output
           Toy.world (fs (ensure_output_dir "out/" Toy.world).2)
           tt tt 128022 Toy.input_text float32
           (Eager (L := Toy.lib false) tt cpu float32) IsADirectoryError);
    vm_compute; reflexivity.
Defined.



(** X16. With [tensorrt] set and the module [torch_tensorrt] missing,
    [main] ends with [ImportError] at the import inside the branch: only
    after it created the output directory, loaded tokenizer and model,
    counted the lines and built the loader, and before it traces the
    model or opens the output file. *)
Theorem X16_missing_tensorrt_fails_after_loading (L : Lib) (a : Args) (w : World)
    (fs0 : FS.t) (t : Tok L) (net : Net L) (bos : Z) (content : string) (dt : dtype) :
  tensorrt a = true →
  tensorrt_installed L = false →
  dir_step (output_path a) (fs w) = Ok fs0 →
  tokenizer_from_pretrained L (model_name a) = Some t →
  model_from_pretrained L (model_name a) = Some net →
  lang_code_to_id L t (target_lang a) = Some bos →
  FS.read (sentences_path a) fs0 = Ok content →
  dtype_of (precision a) = Some dt →
  main L a w =
  (Raise ImportError,
   {| fs := fs0;
      trace := trace w ++ dir_events (output_path a) (fs w)
               ++ [Print "Loading tokenizer..."; TokenizerFromPretrained (model_name a);
                   Print "Loading model..."; ModelFromPretrained (model_name a);
                   Print ("Model loaded." +:+ Text.NL); ModelEval;
                   CountLines (sentences_path a);
                   Print ("We will translate " +:+ pretty (length (Text.lines content))
                          +:+ " lines.");
                   GetDataloader (sentences_path a) (batch_size a) 128;
                   ImportTensorrt] |}).
Proof.
  intros Htrt Hmissing Hdir Ht Hnet Hbos Hread Hdt.
  unfold main. rewrite bind_unfold.
  pose proof (ensure_output_dir_spec (output_path a) w) as H0.
  rewrite Hdir in H0. rewrite H0.
  unfold M2M100Tokenizer_from_pretrained, M2M100ForConditionalGeneration_from_pretrained,
    lang_code_to_id_getitem, set_src_lang, count_lines, get_dataloader, print,
    fs_query, from_option, emit, bind, ret, raise. cbn.
  rewrite Ht. cbn. rewrite Hnet. cbn. rewrite Hbos. cbn. rewrite Hread. cbn.
  rewrite select_dtype_spec, Hdt. cbn.
  unfold place_model, compile_with_tensorrt, bind, emit, raise.
  rewrite Htrt, Hmissing. cbn. do 2 f_equal.
  rewrite <- !app_assoc. reflexivity.
Qed.

Lemma X16_witness :
  main Toy.lib_fragile Toy.args_tensorrt Toy.world =
  (Raise ImportError,
   {| fs := fs (ensure_output_dir "out/res.txt" Toy.world).2;
      trace := trace Toy.world ++ dir_events "out/res.txt" (fs Toy.world)
               ++ [Print "Loading tokenizer..."; TokenizerFromPretrained "facebook/m2m100_1.2B";
                   Print "Loading model..."; ModelFromPretrained "facebook/m2m100_1.2B";
                   Print ("Model loaded." +:+ Text.NL); ModelEval;
                   CountLines "in.txt";
                   Print ("We will translate " +:+ pretty (length (Text.lines Toy.input_text))
                          +:+ " lines.");
                   GetDataloader "in.txt" 2 128;
                   ImportTensorrt] |}).
Proof.
  apply (X16_missing_tensorrt_fails_after_loading Toy.lib_fragile Toy.args_tensorrt
           Toy.world (fs (ensure_output_dir "out/res.txt" Toy.world).2)
           tt tt 128022 Toy.input_text float16);
    vm_compute; reflexivity.
Defined.
